(** * Affine groups and class pickling of the Sage fragment

    Shallow embedding of

    - [src/sage/groups/affine_gps/affine_group.py]: the parent
      [AffineGroup], its argument normalisation [__classcall__], its
      membership check and its element constructors [linear],
      [translation], [reflection], [random_element], [_an_element_];
    - [src/sage/misc/test_class_pickling.py]: the factory [metaclass]
      and the class [Metaclass] with [__eq__] and [__reduce__].

    Matrices, vectors and the base ring are MathComp's: a group of degree
    [n] over [R] has linear parts in ['M[R]_n] and translation parts in
    ['cV[R]_n]; Sage's [A.is_invertible()] is [A \in unitmx], that is
    [\det A] is a unit of [R]. *)

From HB Require Import structures.
Set Warnings "-notation-overridden,-ambiguous-paths,-notation-incompatible-prefix".
From mathcomp Require Import ssreflect ssrfun ssrbool eqtype ssrnat seq choice.
From mathcomp Require Import fintype bigop prime ssralg ssrint zmodp matrix.
From Stdlib Require Import String.

Set Implicit Arguments.
Unset Strict Implicit.
Unset Printing Implicit Defensive.

Import GRing.Theory.

(** ** Python exceptions and the error monad *)

Inductive exception : Type :=
| TypeError (msg : string)
| ValueError (msg : string)
| ZeroDivisionError (msg : string)
| AttributeError (msg : string)
| UnboundLocalError (msg : string)
| RecursionError (msg : string)
| UnpicklingError (msg : string).

Inductive exc (T : Type) : Type :=
| Return (x : T)
| Raise (e : exception).

Arguments Return {T} x.
Arguments Raise {T} e.

Definition bind {T U : Type} (m : exc T) (k : T -> exc U) : exc U :=
  match m with
  | Return x => k x
  | Raise e => Raise e
  end.

Declare Scope exc_scope.
Delimit Scope exc_scope with exc.
Notation "x <- m ;; k" := (bind m (fun x => k))
  (at level 61, m at next level, right associativity) : exc_scope.
Notation "m ;;; k" := (bind m (fun _ => k))
  (at level 61, right associativity) : exc_scope.

Definition is_Return {T : Type} (m : exc T) : bool :=
  if m is Return _ then true else false.

Local Open Scope string_scope.
Local Open Scope ring_scope.
Local Open Scope exc_scope.

(** ** Elements of an affine group *)

Module AffineGroup.

Section Elements.

(** How the base ring divides, a matter of the external ring library.
    In a field and in a residue ring [Z/mZ] the quotient [x / y] is an
    element of the ring when [y] is invertible, and the division raises
    [ZeroDivisionError] otherwise.  In a ring such as the integers Sage
    forms [x / y] in the fraction field: the division raises
    [ZeroDivisionError] when [y] is zero, and otherwise the quotient is
    an element of the fraction field, not of the ring, whatever its
    value ([2 / 1] is a rational). *)
Inductive division_kind : Type :=
| ExactDivision
| FractionFieldDivision.

(** The group [AffineGroup(n, R)]: [degree() = n], [base_ring() = R], and
    the way [R] divides. *)
Variable R : comUnitRingType.
Variable n : nat.
Variable division : division_kind.

(** What callers hand to [linear], [translation] and [reflection]
    ("anything that determines a matrix", "anything that determines a
    vector"), and the coercions [self.matrix_space()(A)] and
    [self.vector_space()(b)] of the external matrix and module library. *)
Variables matrix_like vector_like : Type.
Variable matrix_space_call : matrix_like -> exc 'M[R]_n.
Variable vector_space_call : vector_like -> exc 'cV[R]_n.

(** [matrix_space().one()] and [vector_space().zero()]. *)
Definition matrix_space_one : 'M[R]_n := 1%:M.
Definition vector_space_zero : 'cV[R]_n := 0.

(** [A.is_invertible()]: the determinant is a unit of the base ring. *)
Definition is_invertible (A : 'M[R]_n) : bool := A \in unitmx.

(** The pair [(A, b)] standing for [x |-> A x + b].  Invertibility of [A]
    is not part of the type: it is what the constructors establish. *)
Record AffineGroupElement : Type := Element {
  A : 'M[R]_n;
  b : 'cV[R]_n
}.

(** [_element_constructor_check]: raise [TypeError] unless [A] is
    invertible. *)
Definition _element_constructor_check (A0 : 'M[R]_n) (b0 : 'cV[R]_n)
  : exc unit :=
  if ~~ is_invertible A0 then Raise (TypeError "A must be invertible")
  else Return tt.

(** Modelled from the spec: the constructor of [AffineGroupElement]
    ([group_element.py], absent).  Invertibility "is enforced at
    construction when the check flag is requested", through the parent's
    [_element_constructor_check]; every call site here passes
    [convert=False] with [A] and [b] already in the group's spaces, so no
    coercion takes place. *)
Definition element_class (A0 : 'M[R]_n) (b0 : 'cV[R]_n) (check : bool)
  : exc AffineGroupElement :=
  if check then _element_constructor_check A0 b0 ;;; Return (Element A0 b0)
  else Return (Element A0 b0).

(** Modelled from the spec: the action [x |-> A x + b] of an element, the
    product of two elements (composition of the maps) and the identity
    element, which live in [group_element.py] and the group framework
    (absent). *)
Definition act (g : AffineGroupElement) (x : 'cV[R]_n) : 'cV[R]_n :=
  A g *m x + b g.

Definition mul (g h : AffineGroupElement) : AffineGroupElement :=
  Element (A g *m A h) (b g + A g *m b h).

Definition one : AffineGroupElement :=
  Element matrix_space_one vector_space_zero.

(** The value of a division: an element of the base ring, or an
    element of its fraction field, which is another parent. *)
Inductive quotient : Type :=
| InRing (c : R)
| InFractionField.

(** [x / y] for two elements of the base ring. *)
Definition ring_div (x y : R) : exc quotient :=
  match division with
  | ExactDivision =>
      if y \is a GRing.unit then Return (InRing (x / y))
      else Raise (ZeroDivisionError "division by a non-invertible element")
  | FractionFieldDivision =>
      if y == 0 then Raise (ZeroDivisionError "division by zero")
      else Return InFractionField
  end.

(** [sum([vi**2 for vi in v])]. *)
Definition norm2 (v : 'cV[R]_n) : R := \sum_(i < n) (v i 0) ^+ 2.

(** [linear(A)]. *)
Definition linear (a : matrix_like) : exc AffineGroupElement :=
  A0 <- matrix_space_call a ;;
  element_class A0 vector_space_zero true.

(** [translation(b)]. *)
Definition translation (x : vector_like) : exc AffineGroupElement :=
  b0 <- vector_space_call x ;;
  element_class matrix_space_one b0 false.

(** The Householder matrix as line 435 writes it:
    [one() - v.column() * (v.row() * two_norm2inv)]. *)
Definition householder (v : 'cV[R]_n) (two_norm2inv : R) : 'M[R]_n :=
  matrix_space_one - v *m (two_norm2inv *: v^T).

(** Modelled from the spec: the constructor of [AffineGroupElement]
    ([group_element.py], absent) called with [check=True] and
    [convert=False] on a matrix over the fraction field.  The pair is
    "confirmed to lie in the correct matrix/vector spaces" before the
    membership check, and such a matrix does not lie in
    [matrix_space()]: the constructor raises [TypeError]. *)
Definition element_class_foreign : exc AffineGroupElement :=
  Raise (TypeError "A must be an element of the matrix space").

(** [reflection(v)]: only the division sits in the [try]; a
    [ZeroDivisionError] becomes [ValueError('v has norm zero')].  With a
    factor in the fraction field the matrix of line 435 is a matrix
    over the fraction field. *)
Definition reflection (x : vector_like) : exc AffineGroupElement :=
  v <- vector_space_call x ;;
  two_norm2inv <-
    match ring_div 2%:R (norm2 v) with
    | Raise (ZeroDivisionError _) => Raise (ValueError "v has norm zero")
    | r => r
    end ;;
  match two_norm2inv with
  | InRing c => element_class (householder v c) vector_space_zero true
  | InFractionField => element_class_foreign
  end.

(** The loop [while not A.is_invertible(): A.randomize()].  The draws of
    the random generator are an oracle: [draws k] is the matrix that the
    [k]-th call of [randomize] leaves in [A].  [None] stands for a loop
    that has not stopped within [fuel] rounds. *)
Fixpoint resample (fuel : nat) (draws : nat -> 'M[R]_n) (k : nat)
    (A0 : 'M[R]_n) : option 'M[R]_n :=
  if is_invertible A0 then Some A0
  else if fuel is fuel'.+1 then resample fuel' draws k.+1 (draws k)
  else None.

(** [random_element()]: [first] is [matrix_space().random_element()] and
    [rb] is [vector_space().random_element()]. *)
Definition random_element (fuel : nat) (first : 'M[R]_n)
    (draws : nat -> 'M[R]_n) (rb : 'cV[R]_n) : option (exc AffineGroupElement) :=
  if resample fuel draws 0 first is Some A0
  then Some (element_class A0 rb false) else None.

(** [_an_element_()]: the same loop from [matrix_space().an_element()],
    with [vector_space().an_element()]. *)
Definition _an_element_ (fuel : nat) (mA : 'M[R]_n)
    (draws : nat -> 'M[R]_n) (vb : 'cV[R]_n) : option (exc AffineGroupElement) :=
  if resample fuel draws 0 mA is Some A0
  then Some (element_class A0 vb false) else None.

(** Modelled from the spec: the matrix of an element in
    [linear_space()], the space of [(n+1) x (n+1)] matrices, with
    [group_element.py] absent.  The docstrings of the class and of
    [linear_space] give it as the block matrix with [A] and [b] above
    [0] and [1], acting on a vector [x] lifted to [(x, 1)]. *)
Definition lifted_matrix (g : AffineGroupElement) : 'M[R]_(n + 1) :=
  block_mx (A g) (b g) 0 1%:M.

Definition lifted_vector (x : 'cV[R]_n) : 'cV[R]_(n + 1) :=
  col_mx x 1%:M.

(** The elements that the public constructors hand out. *)
Inductive produced : AffineGroupElement -> Prop :=
| produced_linear a g :
    linear a = Return g -> produced g
| produced_translation x g :
    translation x = Return g -> produced g
| produced_reflection x g :
    reflection x = Return g -> produced g
| produced_random_element fuel first draws rb g :
    random_element fuel first draws rb = Some (Return g) -> produced g
| produced_an_element fuel mA draws vb g :
    _an_element_ fuel mA draws vb = Some (Return g) -> produced g.

End Elements.

(** ** Construction of the parent: [__classcall__] and the instance cache *)

Section Construction.

(** Ring objects of Sage with their equality test, the finite field
    constructor [FiniteField(order, name)] and the initialiser
    [Group.__init__(self, base=ring)] of the group framework: external
    collaborators, taken as parameters. *)
Variable ring : Type.
Variable ring_eqb : ring -> ring -> bool.
Variable FiniteField : int -> string -> exc ring.

(** The Python values [__classcall__] can be handed.  Integers are Sage
    integers (the ones [is_Integer] accepts). *)
Inductive pyobj : Type :=
| Integer (z : int)
| Ring (r : ring)
| AffineSpace (d : nat) (r : ring)
| FreeModule (d : nat) (r : ring)
| Group (g : nat)
| Str (s : string).

Variable Group_init : pyobj -> exc unit.

Definition pyobj_eqb (x y : pyobj) : bool :=
  match x, y with
  | Integer z1, Integer z2 => z1 == z2
  | Ring r1, Ring r2 => ring_eqb r1 r2
  | AffineSpace d1 r1, AffineSpace d2 r2 => (d1 == d2) && ring_eqb r1 r2
  | FreeModule d1 r1, FreeModule d2 r2 => (d1 == d2) && ring_eqb r1 r2
  | Group g1, Group g2 => g1 == g2
  | Str s1, Str s2 => String.eqb s1 s2
  | _, _ => false
  end.

(** [V.dimension_relative()]: affine spaces have it. *)
Definition dimension_relative (V : pyobj) : exc pyobj :=
  if V is AffineSpace d _ then Return (Integer (Posz d))
  else Raise (AttributeError "dimension_relative").

(** [V.dimension()]. *)
Definition dimension (V : pyobj) : exc pyobj :=
  match V with
  | AffineSpace d _ | FreeModule d _ => Return (Integer (Posz d))
  | _ => Raise (AttributeError "dimension")
  end.

(** [V.base_ring()]. *)
Definition base_ring (V : pyobj) : exc pyobj :=
  match V with
  | AffineSpace _ r | FreeModule _ r => Return (Ring r)
  | _ => Raise (AttributeError "base_ring")
  end.

(** [kwds.get(key, default)]. *)
Fixpoint kwds_get (kwds : seq (string * string)) (key default : string)
  : string :=
  if kwds is (k, v) :: kwds' then
    if String.eqb k key then v else kwds_get kwds' key default
  else default.

(** An [AffineGroup] instance: [_degree] and the base handed to
    [Group.__init__]. *)
Record instance : Type := Instance {
  _degree : pyobj;
  base : pyobj
}.

(** The process-wide state: the instance cache, keyed by the normalised
    arguments, and the instances allocated so far; a reference to an
    instance is its index in [instances]. *)
Record world : Type := World {
  cache : seq ((pyobj * pyobj) * nat);
  instances : seq instance
}.

Definition empty_world : world := World [::] [::].

Definition key_eqb (k1 k2 : pyobj * pyobj) : bool :=
  pyobj_eqb k1.1 k2.1 && pyobj_eqb k1.2 k2.2.

Fixpoint cache_get (c : seq ((pyobj * pyobj) * nat)) (k : pyobj * pyobj)
  : option nat :=
  if c is (k', g) :: c' then
    if key_eqb k' k then Some g else cache_get c' k
  else None.

(** [AffineGroup.__init__]. *)
Definition __init__ (degree ring0 : pyobj) : exc instance :=
  let self := Instance degree ring0 in
  Group_init ring0 ;;; Return self.

(** Modelled from the spec: [UniqueRepresentation.__classcall__]
    ([unique_representation.py], absent), "a registry mapping normalized
    constructor arguments to previously built instances" with
    insert-if-absent: a hit returns the cached instance, a miss builds one
    with [__init__] and records it. *)
Definition cached_classcall (degree ring0 : pyobj) (w : world)
  : exc (nat * world) :=
  match cache_get (cache w) (degree, ring0) with
  | Some g => Return (g, w)
  | None =>
      self <- __init__ degree ring0 ;;
      let g := size (instances w) in
      Return (g, World (((degree, ring0), g) :: cache w)
                       (rcons (instances w) self))
  end.

(** What lines 163-178 of [__classcall__] compute before the call of
    line 179: an instance to hand back, or the pair [(degree, ring)]. *)
Inductive normal_form : Type :=
| Existing (g : nat)
| Params (degree ring0 : pyobj).

Definition normalize (args : seq pyobj) (kwds : seq (string * string))
  : exc normal_form :=
  match args with
  | [:: V] =>
      if V is Group g then Return (Existing g) else
      degree <-
        match dimension_relative V with
        | Raise (AttributeError _) => dimension V
        | r => r
        end ;;
      ring0 <- base_ring V ;;
      Return (Params degree ring0)
  | [:: degree; ring0] =>
      if ring0 is Integer q then
        let var := kwds_get kwds "var" "a" in
        r <- FiniteField q var ;;
        Return (Params degree (Ring r))
      else Return (Params degree ring0)
  | _ => Raise (UnboundLocalError "degree")
  end.

(** [AffineGroup.__classcall__(cls, *args, **kwds)]. *)
Definition __classcall__ (args : seq pyobj) (kwds : seq (string * string))
    (w : world) : exc (nat * world) :=
  nf <- normalize args kwds ;;
  match nf with
  | Existing g => Return (g, w)
  | Params degree ring0 => cached_classcall degree ring0 w
  end.

(** Worlds that a run of construction calls leads to. *)
Inductive evolves : world -> world -> Prop :=
| evolves_refl w : evolves w w
| evolves_step w1 w2 w3 args kwds g :
    evolves w1 w2 -> __classcall__ args kwds w2 = Return (g, w3) ->
    evolves w1 w3.

(** The parameters of the instance behind a reference. *)
Definition params_of (w : world) (g : nat) : option (pyobj * pyobj) :=
  if g < size (instances w) then
    let i := nth (Instance (Str "") (Str "")) (instances w) g in
    Some (_degree i, base i)
  else None.

(** [degree()]: the stored [_degree] of the instance behind a reference. *)
Definition degree (w : world) (self : nat) : option pyobj :=
  if params_of w self is Some (d, _) then Some d else None.

(** The cache and the instances agree: a cached reference designates an
    instance built from its key, and every instance is the cached one of
    its parameters. *)
Definition cache_ok (w : world) : Prop :=
  (forall k g, cache_get (cache w) k = Some g -> params_of w g = Some k) /\
  (forall g k, params_of w g = Some k -> cache_get (cache w) k = Some g).

End Construction.

Arguments Integer {ring} z.
Arguments Group {ring} g.
Arguments Str {ring} s.
Arguments empty_world {ring}.

End AffineGroup.

(** ** Pickling of classes made by a metaclass *)

Module ClassPickling.

(** [type(c)] of a class object: the builtin [type], or [Metaclass]. *)
Inductive pytype : Type := type_ | Metaclass.

Definition pytype_is (t1 t2 : pytype) : bool :=
  match t1, t2 with
  | type_, type_ | Metaclass, Metaclass => true
  | _, _ => false
  end.

(** A class object on the heap.  Classes are referred to by their index
    in the heap, and [reduce_args] is the attribute that [metaclass]
    sets, absent on the classes of a [class] statement.  The attribute
    [__bases__], which the interpreter derives from the bases given
    (with [object] when there are none), is read by none of the
    functions of the module and is not part of the record. *)
Record class_object : Type := ClassObject {
  ob_type : pytype;
  __name__ : string;
  reduce_args : option (string * seq nat)
}.

(** The interpreter state: the classes built so far and what was
    printed, oldest line first. *)
Record state : Type := State {
  heap : seq class_object;
  stdout : seq string
}.

Definition eq_line : string := "calling __eq__ defined in Metaclass".

Definition print (line : string) (st : state) : state :=
  State (heap st) (rcons (stdout st) line).

Definition getobj (st : state) (c : nat) : class_object :=
  nth (ClassObject type_ "" None) (heap st) c.

Section Metaclass.

(** [type.__new__] may refuse a tuple of bases (a duplicate base, no
    consistent method resolution order): the interpreter's verdict is a
    parameter. *)
Variable type_new_check : string -> seq nat -> exc unit.

(** [metaclass(name, bases)]. *)
Definition metaclass (name : string) (bases : seq nat) (st : state)
  : exc nat * state :=
  let st1 := print "constructing class" st in
  match type_new_check name bases with
  | Raise e => (Raise e, st1)
  | Return _ =>
      let result := size (heap st1) in
      let st2 := State (rcons (heap st1) (ClassObject Metaclass name None))
                       (stdout st1) in
      let st3 :=
        State (set_nth (ClassObject type_ "" None) (heap st2) result
                 (ClassObject Metaclass name (Some (name, bases))))
              (stdout st2) in
      (Return result, st3)
  end.

(** Equality of two tuples of classes as the interpreter runs it: item
    by item, identical items count as equal without a call, the first
    unequal pair decides, and lengths are compared last. *)
Fixpoint tuple_eq (item_eq : nat -> nat -> state -> exc bool * state)
    (s1 s2 : seq nat) (st : state) : exc bool * state :=
  match s1, s2 with
  | [::], [::] => (Return true, st)
  | x :: s1', y :: s2' =>
      if x == y then tuple_eq item_eq s1' s2' st
      else
        match item_eq x y st with
        | (Return true, st') => tuple_eq item_eq s1' s2' st'
        | r => r
        end
  | _, _ => (Return false, st)
  end.

(** [Metaclass.__eq__(self, other)], and [x == y] on two distinct class
    objects, which dispatches to it when one side is of type
    [Metaclass] and is identity otherwise.  The recursion through
    [reduce_args] is bounded by [fuel]; running out of it is Python's
    [RecursionError]. *)
Fixpoint Metaclass__eq__ (fuel : nat) (self other : nat) (st : state)
  : exc bool * state :=
  if fuel is fuel'.+1 then
    let st1 := print eq_line st in
    if pytype_is (ob_type (getobj st1 self)) (ob_type (getobj st1 other)) then
      match reduce_args (getobj st1 self), reduce_args (getobj st1 other) with
      | Some (name1, bases1), Some (name2, bases2) =>
          if String.eqb name1 name2 then
            tuple_eq
              (fun x y st' =>
                 match ob_type (getobj st' x), ob_type (getobj st' y) with
                 | Metaclass, _ => Metaclass__eq__ fuel' x y st'
                 | type_, Metaclass => Metaclass__eq__ fuel' y x st'
                 | type_, type_ => (Return false, st')
                 end)
              bases1 bases2 st1
          else (Return false, st1)
      | _, _ => (Raise (AttributeError "reduce_args"), st1)
      end
    else (Return false, st1)
  else (Raise (RecursionError "maximum recursion depth exceeded"), st).

(** [Metaclass.__reduce__(self)]: the callable is always [metaclass], so
    the reduce value is given by its arguments. *)
Definition Metaclass__reduce__ (self : nat) (st : state)
  : exc (string * seq nat) * state :=
  let st1 := print "reducing a class" st in
  match reduce_args (getobj st1 self) with
  | Some args => (Return args, st1)
  | None => (Raise (AttributeError "reduce_args"), st1)
  end.

(** A pickle of a class, as the instructions that the unpickler runs on
    its stack.  [GLOBAL c] pushes the plain class [c], found again under
    its module and name.  [REDUCE k name n] stands for the reduce value
    [(metaclass, (name, bases))] once the [n] bases are on the stack: it
    pops them, calls [metaclass(name, bases)], pushes the class made and
    records it in the memo under [k].  [GET k] pushes the class that
    the memo has under [k]. *)
Inductive instruction : Type :=
| GLOBAL (c : nat)
| GET (k : nat)
| REDUCE (k : nat) (name : string) (nbases : nat).

(** The pickler on the items of a tuple, from left to right. *)
Fixpoint save_all
    (save : nat -> seq nat -> state -> exc (seq instruction * seq nat) * state)
    (cs : seq nat) (memo : seq nat) (st : state)
  : exc (seq instruction * seq nat) * state :=
  if cs is c :: cs' then
    match save c memo st with
    | (Return (ops, memo1), st1) =>
        match save_all save cs' memo1 st1 with
        | (Return (ops', memo2), st2) => (Return (cat ops ops', memo2), st2)
        | r => r
        end
    | r => r
    end
  else (Return ([::], memo), st).

(** The pickler on a class.  A class already written is written as a
    reference to the memo.  A plain class is written by reference to its
    module and name.  For a class of type [Metaclass], registered by
    [copyreg.pickle(Metaclass, Metaclass.__reduce__)], the reduce hook is
    called, then its arguments are written, the bases one after the
    other by the pickler itself, and the class enters the memo last.
    The recursion is bounded by [fuel]; running out of it is Python's
    [RecursionError]. *)
Fixpoint save (fuel : nat) (c : nat) (memo : seq nat) (st : state)
  : exc (seq instruction * seq nat) * state :=
  if fuel is fuel'.+1 then
    if c \in memo then (Return ([:: GET c], memo), st)
    else
      match ob_type (getobj st c) with
      | type_ => (Return ([:: GLOBAL c], memo), st)
      | Metaclass =>
          match Metaclass__reduce__ c st with
          | (Return (name, bases), st1) =>
              match save_all (save fuel') bases memo st1 with
              | (Return (ops, memo1), st2) =>
                  (Return (rcons ops (REDUCE c name (size bases)),
                           c :: memo1), st2)
              | r => r
              end
          | (Raise e, st1) => (Raise e, st1)
          end
      end
  else (Raise (RecursionError "maximum recursion depth exceeded"), st).

(** [dumps(c)]. *)
Definition dumps (fuel : nat) (c : nat) (st : state)
  : exc (seq instruction) * state :=
  match save fuel c [::] st with
  | (Return (ops, _), st1) => (Return ops, st1)
  | (Raise e, st1) => (Raise e, st1)
  end.

(** The memo of the unpickler. *)
Fixpoint memo_get (table : seq (nat * nat)) (k : nat) : option nat :=
  if table is (k', c) :: table' then
    if k' == k then Some c else memo_get table' k
  else None.

(** The unpickler: it runs the instructions, and the class on top of the
    stack at the end is the result. *)
Fixpoint load (ops : seq instruction) (stack : seq nat)
    (table : seq (nat * nat)) (st : state) : exc nat * state :=
  match ops with
  | [::] =>
      if stack is c :: _ then (Return c, st)
      else (Raise (UnpicklingError "stack underflow"), st)
  | GLOBAL c :: ops' => load ops' (c :: stack) table st
  | GET k :: ops' =>
      if memo_get table k is Some c then load ops' (c :: stack) table st
      else (Raise (UnpicklingError "memo value not found"), st)
  | REDUCE k name nbases :: ops' =>
      if (size stack < nbases)%N then
        (Raise (UnpicklingError "stack underflow"), st)
      else
        match metaclass name (rev (take nbases stack)) st with
        | (Return c, st1) =>
            load ops' (c :: drop nbases stack) ((k, c) :: table) st1
        | (Raise e, st1) => (Raise e, st1)
        end
  end.

(** [loads(s)]. *)
Definition loads (s : seq instruction) (st : state) : exc nat * state :=
  load s [::] [::] st.

(** [loads(dumps(c))]. *)
Definition roundtrip (fuel : nat) (c : nat) (st : state) : exc nat * state :=
  match dumps fuel c st with
  | (Return s, st1) => loads s st1
  | (Raise e, st1) => (Raise e, st1)
  end.

(** A heap on which every class of type [Metaclass] has its
    [reduce_args], with bases that were there before it: the heaps that
    [class] statements and calls of [metaclass] build. *)
Definition heap_ok (st : state) : Prop :=
  forall c, ob_type (getobj st c) = Metaclass ->
    exists name bases,
      reduce_args (getobj st c) = Some (name, bases) /\
      all (fun b => (b < c)%N) bases.

(** What [Metaclass.__eq__] decides, without the printing: the same
    type [Metaclass], the same name, and bases that are pairwise
    identical or, again, equal in this sense; [fuel] bounds the depth. *)
Fixpoint class_eqb (fuel : nat) (h : seq class_object) (c c' : nat) : bool :=
  if fuel is fuel'.+1 then
    match nth (ClassObject type_ "" None) h c,
          nth (ClassObject type_ "" None) h c' with
    | ClassObject Metaclass _ (Some (name, bases)),
      ClassObject Metaclass _ (Some (name', bases')) =>
        String.eqb name name' &&
        all2 (fun b b' => (b == b') || class_eqb fuel' h b b') bases bases'
    | _, _ => false
    end
  else false.

(** Invariants of a round trip, for a pickle written on the heap [h]
    of [n0] classes.  The heap only grows.  A plain class comes back as
    itself and a class of type [Metaclass] as a class made after
    pickling and equal to it.  The memo of the unpickler has the keys
    of the memo of the pickler, each with the class that was made for
    it.  An error of the unpickler is a refusal of the interpreter to
    make a class. *)
Definition heap_ext (h h' : seq class_object) : Prop :=
  exists extra, h' = cat h extra.

Definition related (n0 : nat) (h : seq class_object) (b b' : nat) : bool :=
  match ob_type (nth (ClassObject type_ "" None) h b) with
  | Metaclass => class_eqb b.+1 h b b' && (n0 <= b')%N
  | type_ => b' == b
  end.

Definition memo_ok (n0 : nat) (h : seq class_object) (memo : seq nat)
    (table : seq (nat * nat)) : Prop :=
  [seq p.1 | p <- table] = memo /\
  forall k k', memo_get table k = Some k' ->
    [/\ (k < n0)%N, class_eqb k.+1 h k k' & (n0 <= k')%N].

Definition refused (e : exception) : Prop :=
  exists name bases, type_new_check name bases = Raise e.

(** What the unpickler does with instructions [ops] that were written
    for the classes [cs], the memo going from [memo] to [memo']: unless
    the interpreter refuses to make a class, it pushes one class for
    each of [cs], the last on top. *)
Definition load_spec (h : seq class_object) (memo memo' : seq nat)
    (ops : seq instruction) (cs : seq nat) : Prop :=
  forall rest stack table st2,
    heap_ext h (heap st2) -> memo_ok (size h) (heap st2) memo table ->
    (exists e st3,
       load (cat ops rest) stack table st2 = (Raise e, st3) /\ refused e) \/
    (exists cs' table' st3,
       [/\ load (cat ops rest) stack table st2
             = load rest (cat (rev cs') stack) table' st3,
           heap_ext (heap st2) (heap st3),
           memo_ok (size h) (heap st3) memo' table'
         & all2 (related (size h) (heap st3)) cs cs']).

End Metaclass.

End ClassPickling.

(** ** Concrete groups, rings and classes used in the examples *)

Module Examples.

Import AffineGroup ClassPickling.

(** Callers that hand over a matrix or a vector of the group's own
    spaces: the coercion gives it back. *)
Definition from_matrix (R : comUnitRingType) (n : nat) (a : 'M[R]_n)
  : exc 'M[R]_n := Return a.
Definition from_vector (R : comUnitRingType) (n : nat) (x : 'cV[R]_n)
  : exc 'cV[R]_n := Return x.

(** The vectors [(1,1)] and [(1,0)] in degree 2. *)
Definition v11 (R : comUnitRingType) : 'cV[R]_2 := const_mx 1.
Definition v10 (R : comUnitRingType) : 'cV[R]_2 :=
  \col_(i < 2) (if i == 0 :> nat then 1 else 0).

(** The vectors [(2,0)] and [(0,2)] in degree 2. *)
Definition v20 (R : comUnitRingType) : 'cV[R]_2 :=
  \col_(i < 2) (if i == 0 :> nat then 2%:R else 0).
Definition v02 (R : comUnitRingType) : 'cV[R]_2 :=
  \col_(i < 2) (if i == 0 :> nat then 0 else 2%:R).

(** A singular matrix in degree 2. *)
Definition all_ones (R : comUnitRingType) : 'M[R]_2 := const_mx 1.

(** A small universe of ring objects, with [FiniteField] on it: an
    order below 2 and an order that is not a prime power are refused,
    and for a prime order the generator name is ignored (the field is
    the same object whatever name is given; its own name is ['x']). *)
Inductive sage_ring : Type :=
| ZZ
| QQ
| GF (q : nat) (var : string).

Definition sage_ring_eqb (r1 r2 : sage_ring) : bool :=
  match r1, r2 with
  | ZZ, ZZ | QQ, QQ => true
  | GF q1 var1, GF q2 var2 => (q1 == q2) && String.eqb var1 var2
  | _, _ => false
  end.

Definition is_prime_power (q : nat) : bool := size (primes q) == 1%N.

Definition FiniteField (order : int) (name : string) : exc sage_ring :=
  if order is Posz q then
    if (q < 2)%N then
      Raise (ValueError "the order of a finite field must be at least 2")
    else if prime q then Return (GF q "x")
    else if is_prime_power q then Return (GF q name)
    else Raise (ValueError "the order of a finite field must be a prime power")
  else Raise (ValueError "the order of a finite field must be at least 2").

(** [Group.__init__(self, base=ring)] of the group framework: it keeps
    the base and tests nothing about it. *)
Definition Group_init (base0 : pyobj sage_ring) : exc unit := Return tt.

Definition AffineGroup_call := __classcall__ sage_ring_eqb FiniteField Group_init.

(** The classes [alpha] and [bar] of the module, at references 0 and 1,
    and an interpreter that accepts every tuple of bases. *)
Definition module_state : state :=
  State [:: ClassObject type_ "alpha" None;
            ClassObject type_ "bar" None] [::].

Definition accept_bases (name : string) (bases : seq nat) : exc unit :=
  Return tt.

(** The state after [c = metaclass("foo", (alpha, bar))]; [c] is at
    reference 2. *)
Definition foo_state : state :=
  (metaclass accept_bases "foo" [:: 0; 1]%N module_state).2.

(** The state after a second call [metaclass("foo", (alpha, bar))]; the
    new class is at reference 3. *)
Definition foo_state2 : state :=
  (metaclass accept_bases "foo" [:: 0; 1]%N foo_state).2.

(** The state after [k = metaclass("k", (c,))] on the class [c] at
    reference 2; [k] is at reference 3. *)
Definition k_state : state :=
  (metaclass accept_bases "k" [:: 2]%N foo_state).2.

(** A generator whose first draw is singular and whose later draws are
    the identity matrix, and one that only draws a singular matrix. *)
Definition singular_then_one (R : comUnitRingType) (k : nat) : 'M[R]_2 :=
  if k is 0%N then all_ones R else 1%:M.

Definition always_singular (R : comUnitRingType) (k : nat) : 'M[R]_2 :=
  all_ones R.

(** The world after [AffineGroup(2, QQ)], and after [AffineGroup(3, ZZ)]
    on top of it. *)
Definition world_QQ2 : world sage_ring :=
  World [:: ((Integer 2, Ring QQ), 0%N)] [:: Instance (Integer 2) (Ring QQ)].

Definition world_QQ2_ZZ3 : world sage_ring :=
  World [:: ((Integer 3, Ring ZZ), 1%N); ((Integer 2, Ring QQ), 0%N)]
        [:: Instance (Integer 2) (Ring QQ); Instance (Integer 3) (Ring ZZ)].

End Examples.

(** * Properties *)

Import AffineGroup ClassPickling.

Section ElementsTheory.

Variable R : comUnitRingType.
Variable n : nat.
Variables matrix_like vector_like : Type.
Variable matrix_space_call : matrix_like -> exc 'M[R]_n.
Variable vector_space_call : vector_like -> exc 'cV[R]_n.

Notation elt := (AffineGroupElement R n).
Notation linear := (linear matrix_space_call).
Notation translation := (@translation R n _ vector_space_call).
Notation reflection d := (@reflection R n d _ vector_space_call).

(** The squared norm is the entry of the 1 x 1 matrix [v^T v]. *)
Lemma norm2E (v : 'cV[R]_n) : v^T *m v = (norm2 v)%:M.
Proof.
rewrite [LHS]mx11_scalar; congr (_%:M).
by rewrite mxE /norm2; apply: eq_bigr => i _; rewrite mxE expr2.
Qed.

(** The product of two elements acts as the composition of the maps. *)
Lemma act_mul (g h : elt) (x : 'cV[R]_n) : act (mul g h) x = act g (act h x).
Proof.
by rewrite /act /= mulmxDr mulmxA -addrA [_ + b g]addrC.
Qed.

(** The matrix of line 435 is [I - c (v v^T)]. *)
Lemma householderE (v : 'cV[R]_n) (c : R) :
  householder v c = 1%:M - c *: (v *m v^T).
Proof. by rewrite /householder /matrix_space_one -scalemxAr. Qed.

(** With [c (v.v) = 2] the Householder matrix is its own inverse. *)
Lemma householder_involutive (v : 'cV[R]_n) (c : R) :
  c * norm2 v = 2%:R -> householder v c *m householder v c = 1%:M.
Proof.
move=> c2; rewrite householderE; set X := c *: (v *m v^T).
have XX : X *m X = X + X.
  rewrite /X -scalemxAl -scalemxAr scalerA mulmxA -[v *m v^T *m v]mulmxA.
  rewrite norm2E mul_mx_scalar -scalemxAl scalerA -mulrA c2.
  by rewrite mulr_natr mulr2n scalerDl.
by rewrite mulmxBl !mulmxBr !mulmx1 mul1mx XX opprB addrK subrK.
Qed.

Lemma householder_invertible (v : 'cV[R]_n) (c : R) :
  c * norm2 v = 2%:R -> is_invertible (householder v c).
Proof.
move=> /householder_involutive HH; rewrite /is_invertible.
exact: (@intro_unitmx _ _ _ (householder v c)).
Qed.

(** [reflection] in a ring with exact division, when the squared norm
    is invertible and when not; in a ring that divides in its fraction
    field, when the squared norm is zero and when not. *)
Lemma reflection_unit x (v : 'cV[R]_n) :
  vector_space_call x = Return v -> norm2 v \is a GRing.unit ->
  reflection ExactDivision x =
    Return (Element (householder v (2%:R / norm2 v)) (vector_space_zero R n)).
Proof.
move=> xv Uv; rewrite /AffineGroup.reflection xv /= /ring_div Uv /=.
rewrite /element_class /_element_constructor_check.
by rewrite householder_invertible // divrK.
Qed.

Lemma reflection_nonunit x (v : 'cV[R]_n) :
  vector_space_call x = Return v -> norm2 v \isn't a GRing.unit ->
  reflection ExactDivision x = Raise (ValueError "v has norm zero").
Proof.
by move=> xv Uv; rewrite /AffineGroup.reflection xv /= /ring_div (negPf Uv).
Qed.

Lemma reflection_norm0 division x (v : 'cV[R]_n) :
  vector_space_call x = Return v -> norm2 v = 0 ->
  reflection division x = Raise (ValueError "v has norm zero").
Proof.
move=> xv v0; rewrite /AffineGroup.reflection xv /= /ring_div v0.
by case: division; rewrite ?unitr0 ?eqxx.
Qed.

Lemma reflection_fraction x (v : 'cV[R]_n) :
  vector_space_call x = Return v -> norm2 v != 0 ->
  reflection FractionFieldDivision x =
    Raise (TypeError "A must be an element of the matrix space").
Proof.
by move=> xv v0; rewrite /AffineGroup.reflection xv /= /ring_div (negPf v0).
Qed.

(** The loop only stops on an invertible matrix, and it does stop within
    [fuel] rounds when one of the first [fuel] draws is invertible. *)
Lemma resample_invertible fuel draws k (A0 A1 : 'M[R]_n) :
  resample fuel draws k A0 = Some A1 -> is_invertible A1.
Proof.
elim: fuel k A0 => [|fuel IH] k A0 /=.
  by case: ifP => // inv [<-].
by case: ifP => [inv [<-] //|_]; apply: IH.
Qed.

Lemma resample_stops fuel draws k (A0 : 'M[R]_n) j :
  (j < fuel)%N -> is_invertible (draws (k + j)%N) ->
  resample fuel draws k A0 != None.
Proof.
elim: fuel k A0 j => [|fuel IH] k A0 j //= jf inv.
case: ifP => // _; case: j jf inv => [|j] jf inv.
  by rewrite addn0 in inv; case: fuel {IH jf} => [|fuel] /=; rewrite inv.
by apply: (IH _ _ j) => //; rewrite addSnnS.
Qed.

(** [random_element] and [_an_element_] return, and with an invertible
    linear part, as soon as one of the first [fuel] draws is invertible. *)
Lemma random_element_returns fuel (first : 'M[R]_n) draws rb j :
  (j < fuel)%N -> is_invertible (draws j) ->
  exists2 g, random_element fuel first draws rb = Some (Return g)
           & is_invertible (A g).
Proof.
move=> jf inv; rewrite /random_element.
have := @resample_stops fuel draws 0 first j jf inv.
case rs: (resample _ _ _ _) => [A0|] // _.
by eexists; first by []; exact: resample_invertible rs.
Qed.

Lemma an_element_returns fuel (mA : 'M[R]_n) draws vb j :
  (j < fuel)%N -> is_invertible (draws j) ->
  exists2 g, _an_element_ fuel mA draws vb = Some (Return g)
           & is_invertible (A g).
Proof.
move=> jf inv; rewrite /_an_element_.
have := @resample_stops fuel draws 0 mA j jf inv.
case rs: (resample _ _ _ _) => [A0|] // _.
by eexists; first by []; exact: resample_invertible rs.
Qed.

Lemma norm2_zero : norm2 (0 : 'cV[R]_n) = 0.
Proof. by rewrite /norm2 big1 // => i _; rewrite mxE expr0n. Qed.

(** C1: every element handed out by [linear], [translation],
    [reflection], [random_element] or the example element
    [_an_element_] has an invertible linear part. *)
Theorem produced_invertible division (g : elt) :
  produced division matrix_space_call vector_space_call g ->
  is_invertible (A g).
Proof.
case=> {g}.
- move=> a g; rewrite /AffineGroup.linear; case: (matrix_space_call a) => //= A0.
  rewrite /element_class /_element_constructor_check.
  by case inv: (is_invertible A0) => //= -[<-].
- move=> x g; rewrite /AffineGroup.translation.
  case: (vector_space_call x) => //= b0 [<-] /=.
  exact: unitmx1.
- move=> x g; rewrite /AffineGroup.reflection.
  case: (vector_space_call x) => //= v.
  case: (ring_div _ _ _) => [[c|]|[]] //=.
  rewrite /element_class /_element_constructor_check.
  by case inv: (is_invertible _) => //= -[<-].
- move=> fuel first draws rb g; rewrite /random_element.
  case rs: (resample _ _ _ _) => [A0|] //= -[<-] /=.
  exact: resample_invertible rs.
- move=> fuel mA draws vb g; rewrite /_an_element_.
  case rs: (resample _ _ _ _) => [A0|] //= -[<-] /=.
  exact: resample_invertible rs.
Qed.

(** Over a ring that divides in its fraction field, [reflection]
    returns no element: it raises [ValueError] on a vector of squared
    norm zero and the constructor's [TypeError] on every other vector. *)
Lemma reflection_fraction_raises x (v : 'cV[R]_n) :
  vector_space_call x = Return v ->
  reflection FractionFieldDivision x =
    Raise (if norm2 v == 0 then ValueError "v has norm zero"
           else TypeError "A must be an element of the matrix space").
Proof.
move=> xv; case: eqP => [v0|/eqP v0].
  exact: (reflection_norm0 _ xv v0).
exact: (reflection_fraction xv v0).
Qed.

(** C3 (amended): over a base ring with exact division (a field or a
    residue ring [Z/mZ]), when the squared norm of [v] is invertible
    (in a field: not zero), [reflection(v)] is an element whose square
    is the identity; over a base ring that divides in its fraction
    field, such as the integers, [reflection(v)] is never an element. *)
Theorem reflection_involution x (v : 'cV[R]_n) :
  vector_space_call x = Return v ->
  (norm2 v \is a GRing.unit ->
     exists2 g, reflection ExactDivision x = Return g & mul g g = one R n) /\
  ~~ is_Return (reflection FractionFieldDivision x).
Proof.
move=> xv; split=> [Uv|]; last by rewrite (reflection_fraction_raises xv).
rewrite (reflection_unit xv Uv); eexists; first by [].
rewrite /mul /one /= householder_involutive ?divrK //.
by rewrite /vector_space_zero mulmx0 addr0.
Qed.

(** C4: [translation(b1) * translation(b2)] is [translation(b1 + b2)]. *)
Theorem translation_mul x1 x2 x12 (b1 b2 : 'cV[R]_n) :
  vector_space_call x1 = Return b1 -> vector_space_call x2 = Return b2 ->
  vector_space_call x12 = Return (b1 + b2) ->
  exists g1 g2 g12,
    [/\ translation x1 = Return g1, translation x2 = Return g2,
        translation x12 = Return g12 & mul g1 g2 = g12].
Proof.
move=> e1 e2 e12; rewrite /AffineGroup.translation e1 e2 e12 /=.
do 3!eexists; split; try by [].
by rewrite /mul /= /matrix_space_one !mul1mx.
Qed.

(** C5 (amended): over a base ring with exact division (a field or a
    residue ring [Z/mZ]), when the squared norm of [v] is invertible
    (in a field: not zero), [reflection(v)] is the element with linear
    part [I - 2 (v v^T) / (v.v)] and zero translation part; over a base
    ring that divides in its fraction field, such as the integers,
    [reflection(v)] raises an error for every [v]. *)
Theorem reflection_householder x (v : 'cV[R]_n) :
  vector_space_call x = Return v ->
  (norm2 v \is a GRing.unit ->
     reflection ExactDivision x =
       Return (Element (1%:M - (2%:R / norm2 v) *: (v *m v^T)) 0)) /\
  reflection FractionFieldDivision x =
    Raise (if norm2 v == 0 then ValueError "v has norm zero"
           else TypeError "A must be an element of the matrix space").
Proof.
move=> xv; split=> [Uv|]; last exact: reflection_fraction_raises.
by rewrite (reflection_unit xv Uv) householderE.
Qed.

(** C6: [linear(A)] is the element [x |-> A x] with zero translation part
    when the coerced matrix is invertible, and raises the [TypeError] of
    the membership check when it is not, in particular when its
    determinant is zero. *)
Theorem linear_spec a (A0 : 'M[R]_n) :
  matrix_space_call a = Return A0 ->
  [/\ is_invertible A0 ->
        linear a = Return (Element A0 0) /\
        forall x, act (Element A0 0) x = A0 *m x,
      ~~ is_invertible A0 ->
        linear a = Raise (TypeError "A must be invertible")
    & \det A0 = 0 ->
        linear a = Raise (TypeError "A must be invertible")].
Proof.
move=> aA; rewrite /AffineGroup.linear aA /= /_element_constructor_check.
split=> [inv|/negPf->|det0] //.
- by rewrite inv; split=> // x; rewrite /act /= addr0.
- by rewrite /is_invertible unitmxE det0 unitr0.
Qed.

(** C7: [reflection(v)] raises [ValueError('v has norm zero')], and builds
    no element, when [v] is the zero vector, and more generally when the
    squared norm of [v] is zero. *)
Theorem reflection_zero_norm division x (v : 'cV[R]_n) :
  vector_space_call x = Return v -> v = 0 \/ norm2 v = 0 ->
  reflection division x = Raise (ValueError "v has norm zero").
Proof.
move=> xv v0; apply: (reflection_norm0 _ xv).
by case: v0 => [->|//]; exact: norm2_zero.
Qed.

(** The [ValueError] of [reflection] is raised exactly when the division
    raises: on a squared norm that is not invertible in a ring with
    exact division, on a squared norm that is zero in a ring that
    divides in its fraction field. *)
Lemma reflection_errorP division x (v : 'cV[R]_n) :
  vector_space_call x = Return v ->
  reflection division x = Raise (ValueError "v has norm zero") <->
  match division with
  | ExactDivision => norm2 v \isn't a GRing.unit
  | FractionFieldDivision => norm2 v = 0
  end.
Proof.
move=> xv; case: division.
  split; last exact: reflection_nonunit.
  by case U: (norm2 v \is a GRing.unit) => //; rewrite (reflection_unit xv U).
split; last exact: reflection_norm0.
by rewrite (reflection_fraction_raises xv); case: eqP.
Qed.

End ElementsTheory.

(** ** Reflections over [Z/4Z], [Z/8Z] and the field of two elements *)

Section ReflectionExamples.

Import Examples.

Lemma norm2_v11 (R : comUnitRingType) : norm2 (v11 R) = 2%:R.
Proof. by rewrite /norm2 !big_ord_recl big_ord0 !mxE expr1n addr0. Qed.

Lemma v11_neq0 (R : comUnitRingType) : v11 R != 0.
Proof.
apply/eqP => /matrixP /(_ 0 0) /eqP.
by rewrite !mxE oner_eq0.
Qed.

Lemma norm2_v10 (R : comUnitRingType) : norm2 (v10 R) = 1.
Proof.
by rewrite /norm2 !big_ord_recl big_ord0 !mxE /= expr1n expr0n /= !addr0.
Qed.

Lemma norm2_v20 (R : comUnitRingType) : norm2 (v20 R) = 4%:R.
Proof.
rewrite /norm2 !big_ord_recl big_ord0 !mxE /= expr0n /= !addr0.
by rewrite expr2 -natrM.
Qed.

Lemma norm2_v02 (R : comUnitRingType) : norm2 (v02 R) = 4%:R.
Proof.
rewrite /norm2 !big_ord_recl big_ord0 !mxE /= expr0n /= add0r addr0.
by rewrite expr2 -natrM.
Qed.

(** In [Z/8Z], 4 is neither zero nor invertible, and 2 is not a
    multiple of it: the quotient [2 / 4] does not exist. *)
Lemma four_Z8_neq0 : (4%:R : 'Z_8) != 0.
Proof. by []. Qed.

Lemma four_Z8_nonunit : (4%:R : 'Z_8) \isn't a GRing.unit.
Proof. by []. Qed.

Lemma four_Z8_no_quotient (c : 'Z_8) : c * 4%:R != 2%:R.
Proof. by case: c => [[|[|[|[|[|[|[|[|c]]]]]]]] lt]. Qed.

Lemma two_F2 : (2%:R : 'F_2) = 0.
Proof. exact: val_inj. Qed.

(** In the integers 1 is invertible and 2 is neither zero nor invertible. *)
Lemma two_ZZ_neq0 : (2%:R : int) != 0.
Proof. by []. Qed.

Lemma two_ZZ_nonunit : (2%:R : int) \isn't a GRing.unit.
Proof. by []. Qed.

Notation reflection_Z4 := (reflection ExactDivision (@from_vector 'Z_4 2)).
Notation reflection_Z8 := (reflection ExactDivision (@from_vector 'Z_8 2)).
Notation reflection_F2 := (reflection ExactDivision (@from_vector 'F_2 2)).
Notation reflection_ZZ :=
  (reflection FractionFieldDivision (@from_vector int 2)).

(** [G.reflection([1,0])] over a field or a residue ring: the first
    coordinate changes sign. *)
Lemma reflection_v10 (R : comUnitRingType) :
  reflection ExactDivision (@from_vector R 2) (v10 R) =
    Return (Element (\matrix_(i < 2, j < 2)
                       (if (i == 0 :> nat) && (j == 0 :> nat) then -1
                        else (i == j)%:R)) 0).
Proof.
rewrite (@reflection_unit _ _ _ _ _ (v10 R)) ?norm2_v10 ?unitr1 //.
congr (Return (Element _ _)); apply/matrixP => i j.
rewrite !mxE big_ord1 !mxE divr1.
case: i => [[|[|i]]] // hi; case: j => [[|[|j]]] // hj;
  rewrite /= ?mulr0 ?mul0r ?subr0 //.
by rewrite mul1r mulr1 -[2%:R]/(1 + 1) opprD addrA subrr add0r.
Qed.

(** [AffineGroup(2, ZZ).reflection([1,0])]: the factor [2 / 1] is a
    rational, and the constructor refuses the matrix. *)
Lemma reflection_ZZ_v10 :
  reflection_ZZ (v10 int) =
    Raise (TypeError "A must be an element of the matrix space").
Proof.
by rewrite (@reflection_fraction _ _ _ _ _ (v10 int)) // norm2_v10.
Qed.

Lemma reflection_ZZ_v11 :
  reflection_ZZ (v11 int) =
    Raise (TypeError "A must be an element of the matrix space").
Proof.
by rewrite (@reflection_fraction _ _ _ _ _ (v11 int)) // norm2_v11.
Qed.

Lemma produced_invertible_witness :
  produced ExactDivision (@from_matrix 'Z_4 2) (@from_vector 'Z_4 2)
    (Element 1%:M 0) /\
  is_invertible (A (Element (1%:M : 'M['Z_4]_2) 0)).
Proof.
have pr : produced ExactDivision (@from_matrix 'Z_4 2) (@from_vector 'Z_4 2)
            (Element 1%:M 0).
  apply: (@produced_linear _ _ _ _ _ _ _ 1%:M).
  by rewrite /linear /= /_element_constructor_check /is_invertible unitmx1.
split; [exact: pr | exact: (produced_invertible pr)].
Defined.

(** Over [Z/8Z] the vector [(2,0)] has squared norm 4, which is not zero
    and not invertible (no [c] has [4 c = 2]): [reflection] raises and
    there is no element to square.  Over the integers the vector [(1,0)]
    has squared norm 1 and [reflection] raises all the same. *)
Lemma reflection_involution_counterexample :
  [/\ norm2 (v20 'Z_8) != 0,
      forall c : 'Z_8, c * norm2 (v20 'Z_8) != 2%:R,
      reflection_Z8 (v20 'Z_8) = Raise (ValueError "v has norm zero"),
      ~ (exists2 g, reflection_Z8 (v20 'Z_8) = Return g
                  & mul g g = one 'Z_8 2)
    & norm2 (v10 int) != 0 /\
      ~ (exists2 g, reflection_ZZ (v10 int) = Return g
                  & mul g g = one int 2)].
Proof.
have E : reflection_Z8 (v20 'Z_8) = Raise (ValueError "v has norm zero").
  by rewrite (@reflection_nonunit _ _ _ _ _ (v20 'Z_8)) // norm2_v20.
split; rewrite ?norm2_v20 //; first exact: four_Z8_no_quotient.
  by case=> g; rewrite E.
by split; [rewrite norm2_v10 | case=> g; rewrite reflection_ZZ_v10].
Qed.

Lemma reflection_involution_witness :
  [/\ from_vector (v10 'Z_4) = Return (v10 'Z_4),
      norm2 (v10 'Z_4) \is a GRing.unit
    & exists2 g, reflection_Z4 (v10 'Z_4) = Return g & mul g g = one 'Z_4 2].
Proof.
have U : norm2 (v10 'Z_4) \is a GRing.unit by rewrite norm2_v10 unitr1.
split; [by [] | exact: U |].
have [inv _] :=
  @reflection_involution _ _ _ (@from_vector 'Z_4 2)
    (v10 'Z_4) (v10 'Z_4) (erefl _).
exact: inv U.
Defined.

Lemma translation_mul_witness :
  exists g1 g2 g12,
    [/\ translation (@from_vector 'Z_4 2) (v10 _) = Return g1,
        translation (@from_vector 'Z_4 2) (v11 _) = Return g2,
        translation (@from_vector 'Z_4 2) (v10 _ + v11 _) = Return g12
      & mul g1 g2 = g12].
Proof.
exact: (@translation_mul _ _ _ (@from_vector 'Z_4 2) _ _ _ _ _
          (erefl _) (erefl _) (erefl _)).
Defined.

(** Over [Z/8Z] the vector [(0,2)] has the nonzero squared norm 4 and
    [reflection] returns no element: it raises its [ValueError].  Over
    the integers the vector [(1,0)] has squared norm 1 and [reflection]
    raises the constructor's [TypeError]. *)
Lemma reflection_householder_counterexample :
  [/\ norm2 (v02 'Z_8) != 0,
      forall c : 'Z_8, c * norm2 (v02 'Z_8) != 2%:R,
      reflection_Z8 (v02 'Z_8) = Raise (ValueError "v has norm zero"),
      reflection_Z8 (v02 'Z_8) <>
        Return (Element (1%:M - (2%:R / norm2 (v02 'Z_8))
                                 *: (v02 _ *m (v02 _)^T)) 0)
    & norm2 (v10 int) != 0 /\
      reflection_ZZ (v10 int) =
        Raise (TypeError "A must be an element of the matrix space")].
Proof.
have E : reflection_Z8 (v02 'Z_8) = Raise (ValueError "v has norm zero").
  by rewrite (@reflection_nonunit _ _ _ _ _ (v02 'Z_8)) // norm2_v02.
split; rewrite ?norm2_v02 //; first exact: four_Z8_no_quotient.
  by rewrite E.
by split; [rewrite norm2_v10 | exact: reflection_ZZ_v10].
Qed.

Lemma reflection_householder_witness :
  [/\ from_vector (v10 'Z_4) = Return (v10 'Z_4),
      norm2 (v10 'Z_4) \is a GRing.unit
    & reflection_Z4 (v10 'Z_4) =
      Return (Element (1%:M - (2%:R / norm2 (v10 'Z_4)) *: (v10 _ *m (v10 _)^T)) 0)].
Proof.
have U : norm2 (v10 'Z_4) \is a GRing.unit by rewrite norm2_v10 unitr1.
split; [by [] | exact: U |].
have [ret _] :=
  @reflection_householder _ _ _ (@from_vector 'Z_4 2)
    (v10 'Z_4) (v10 'Z_4) (erefl _).
exact: ret U.
Defined.

Lemma det_all_ones (R : comUnitRingType) : \det (all_ones R) = 0.
Proof.
apply: (@determinant_alternate _ _ _ 0 1) => // j.
by rewrite !mxE.
Qed.

Lemma linear_spec_witness :
  from_matrix (all_ones 'Z_4) = Return (all_ones 'Z_4) /\
  linear (@from_matrix 'Z_4 2) (all_ones 'Z_4) =
    Raise (TypeError "A must be invertible").
Proof.
split; first by [].
have [_ _ sing] :=
  @linear_spec _ _ _ (@from_matrix 'Z_4 2) (all_ones _) (all_ones _) (erefl _).
exact: (sing (det_all_ones _)).
Defined.

Lemma reflection_zero_norm_witness :
  reflection_Z4 0 = Raise (ValueError "v has norm zero").
Proof.
exact: (@reflection_zero_norm 'Z_4 2 _ (@from_vector 'Z_4 2) ExactDivision
          (0 : 'cV['Z_4]_2) (0 : 'cV['Z_4]_2)
          (erefl _) (or_introl (erefl _))).
Defined.

(** Over the integers the vector [(1,1)] has squared norm 2, which is
    not zero and not invertible, and [reflection] does not raise its
    [ValueError]: the division gives a rational and the constructor
    raises [TypeError]. *)
Lemma reflection_error_nonzero_vector_counterexample :
  [/\ norm2 (v11 int) \isn't a GRing.unit,
      norm2 (v11 int) != 0,
      reflection_ZZ (v11 int) =
        Raise (TypeError "A must be an element of the matrix space")
    & reflection_ZZ (v11 int) <> Raise (ValueError "v has norm zero")].
Proof.
by split; rewrite ?norm2_v11 ?reflection_ZZ_v11.
Qed.

(** C9 (amended): [reflection] raises its [ValueError] exactly when the
    division [2 / (v.v)] raises: when the sum of the squares of the
    entries is zero, and, in a base ring with exact division (a field
    or a residue ring [Z/mZ]), also when it is not invertible; in
    characteristic 2, and so over the field of two elements, that
    happens at the nonzero vector [(1,1)]. *)
Theorem reflection_error_nonzero_vector :
  [/\ forall (R : comUnitRingType) (n : nat) (division : division_kind)
             (vector_like : Type)
             (vector_space_call : vector_like -> exc 'cV[R]_n) x v,
        vector_space_call x = Return v ->
        (reflection division vector_space_call x
           = Raise (ValueError "v has norm zero")
         <-> match division with
             | ExactDivision => norm2 v \isn't a GRing.unit
             | FractionFieldDivision => norm2 v = 0
             end),
      forall (R : comUnitRingType) (division : division_kind),
        2%:R = 0 :> R ->
        v11 R != 0 /\
        reflection division (@from_vector R 2) (v11 R) =
          Raise (ValueError "v has norm zero")
    & v11 'F_2 != 0 /\
      reflection_F2 (v11 'F_2) = Raise (ValueError "v has norm zero")].
Proof.
have char2 (R : comUnitRingType) division : 2%:R = 0 :> R ->
    v11 R != 0 /\
    reflection division (@from_vector R 2) (v11 R) =
      Raise (ValueError "v has norm zero").
  move=> R2; split; first exact: v11_neq0.
  by rewrite (@reflection_norm0 _ _ _ _ _ _ (v11 R)) // norm2_v11.
split=> //; last exact: char2 two_F2.
by move=> R n division vl call x v; exact: reflection_errorP.
Qed.

Lemma reflection_error_nonzero_vector_witness :
  v11 'F_2 != 0 /\
  reflection_F2 (v11 'F_2) = Raise (ValueError "v has norm zero").
Proof. by case: reflection_error_nonzero_vector. Defined.

End ReflectionExamples.

(** ** Construction: one instance per pair of parameters *)

Section ConstructionTheory.

Variable ring : Type.
Variable ring_eqb : ring -> ring -> bool.
Variable FiniteField : int -> string -> exc ring.
Variable Group_init : pyobj ring -> exc unit.

(** The equality test of ring objects decides their identity. *)
Hypothesis ring_eqbP : forall r1 r2, reflect (r1 = r2) (ring_eqb r1 r2).

Notation classcall := (__classcall__ ring_eqb FiniteField Group_init).
Notation cached := (cached_classcall ring_eqb Group_init).
Notation normalize := (normalize FiniteField).
Notation evolves := (evolves ring_eqb FiniteField Group_init).
Notation cache_ok := (cache_ok ring_eqb).
Notation get := (cache_get ring_eqb).

Lemma pyobj_eqbP (x y : pyobj ring) : reflect (x = y) (pyobj_eqb ring_eqb x y).
Proof.
case: x y => [z1|r1|d1 r1|d1 r1|g1|s1] [z2|r2|d2 r2|d2 r2|g2|s2] /=;
  try by constructor.
- by apply: (iffP eqP) => [->|[]].
- by apply: (iffP (ring_eqbP r1 r2)) => [->|[]].
- by apply: (iffP andP) => [[/eqP-> /ring_eqbP->]|[-> ->]] //; split=> //; apply/ring_eqbP.
- by apply: (iffP andP) => [[/eqP-> /ring_eqbP->]|[-> ->]] //; split=> //; apply/ring_eqbP.
- by apply: (iffP eqP) => [->|[]].
- by apply: (iffP (String.eqb_spec s1 s2)) => [->|[]].
Qed.

Lemma key_eqbP (k1 k2 : pyobj ring * pyobj ring) :
  reflect (k1 = k2) (key_eqb ring_eqb k1 k2).
Proof.
case: k1 k2 => [d1 r1] [d2 r2]; rewrite /key_eqb /=.
by apply: (iffP andP) => [[/pyobj_eqbP-> /pyobj_eqbP->]|[-> ->]] //;
   split; apply/pyobj_eqbP.
Qed.

Lemma key_eqb_refl (k : pyobj ring * pyobj ring) : key_eqb ring_eqb k k.
Proof. exact/key_eqbP. Qed.

Lemma params_of_rcons (c : seq ((pyobj ring * pyobj ring) * nat))
    (w : world ring) (i : instance ring) (g : nat) :
  params_of (World c (rcons (instances w) i)) g =
    if (g < size (instances w))%N then params_of w g
    else if g == size (instances w) then Some (_degree i, base i) else None.
Proof.
rewrite /params_of /= size_rcons nth_rcons ltnS leq_eqVlt.
by case: ltngtP => //=; rewrite ?orbT ?orbF.
Qed.

Lemma params_of_lt (w : world ring) g k : params_of w g = Some k -> (g < size (instances w))%N.
Proof. by rewrite /params_of; case: ltnP. Qed.

Lemma cache_ok_empty : cache_ok empty_world.
Proof. by split=> [k g|g k]. Qed.

(** One call of the cache: the invariant is kept, the pair is cached
    under the returned reference afterwards, and no entry is lost. *)
Lemma cached_classcall_ok d r w g w' :
  cache_ok w -> cached d r w = Return (g, w') ->
  [/\ cache_ok w', get (cache w') (d, r) = Some g
     & forall k h, get (cache w) k = Some h -> get (cache w') k = Some h].
Proof.
case=> ok1 ok2; rewrite /cached_classcall.
case E: (get _ _) => [h|]; first by case=> <- <-; split.
rewrite /__init__; case: (Group_init r) => //= _ [<- <-] {g w'}.
have fresh k h : get (cache w) k = Some h -> key_eqb ring_eqb (d, r) k = false.
  by move=> kh; apply/negP => /key_eqbP dk; rewrite -dk E in kh.
split=> /=; last 1 first.
- by move=> k h kh; rewrite (fresh k h kh).
- split=> [k g /=|g k].
    case: ifP => [/key_eqbP <- [<-]|_ kg].
      by rewrite params_of_rcons ltnn eqxx.
    by rewrite params_of_rcons (params_of_lt (ok1 _ _ kg)); exact: ok1.
  rewrite params_of_rcons /=; case: ltnP => [lt pg|_].
    by rewrite (fresh k g (ok2 _ _ pg)); exact: ok2.
  by case: eqP => // -> [<-]; rewrite key_eqb_refl.
- by rewrite key_eqb_refl.
Qed.

(** The same for [__classcall__], when it went through the cache. *)
Lemma classcall_ok args kwds w g w' :
  cache_ok w -> classcall args kwds w = Return (g, w') ->
  cache_ok w' /\
  forall k h, get (cache w) k = Some h -> get (cache w') k = Some h.
Proof.
move=> ok; rewrite /__classcall__; case: (normalize _ _) => //= -[h|d r].
  by case=> _ <-.
by case/(cached_classcall_ok ok).
Qed.

Lemma classcall_params args kwds d r w g w' :
  cache_ok w -> normalize args kwds = Return (Params d r) ->
  classcall args kwds w = Return (g, w') -> get (cache w') (d, r) = Some g.
Proof.
move=> ok nf; rewrite /__classcall__ nf /=.
by case/(cached_classcall_ok ok).
Qed.

Lemma evolves_ok w w' :
  cache_ok w -> evolves w w' ->
  cache_ok w' /\
  forall k h, get (cache w) k = Some h -> get (cache w') k = Some h.
Proof.
move=> ok ev; elim: ev ok => {w w'} [w1|w1 w2 w3 args kwds g _ IH call] ok1 //.
have [ok2 mono2] := IH ok1.
have [ok3 mono3] := classcall_ok ok2 call.
by split=> // k h /mono2 /mono3.
Qed.

(** C2: in every world that construction calls lead to, two calls whose
    arguments normalise to the same pair [(degree, ring)] return the same
    reference, whatever calls happen in between, the second one leaving
    the world as it is; no two instances have the same parameters; and a
    space of dimension [d] over [r], the pair [(d, r)] and the pair
    [(d, q)] with [q] the order of the finite field [r] all normalise to
    [(d, r)]. *)
Theorem classcall_unique (w : world ring) :
  evolves empty_world w ->
  [/\ forall args1 kwds1 args2 kwds2 d r g1 w1 w2,
        normalize args1 kwds1 = Return (Params d r) ->
        normalize args2 kwds2 = Return (Params d r) ->
        classcall args1 kwds1 w = Return (g1, w1) -> evolves w1 w2 ->
        classcall args2 kwds2 w2 = Return (g1, w2),
      forall g h p,
        params_of w g = Some p -> params_of w h = Some p -> g = h
    & forall d r q kwds,
      [/\ normalize [:: AffineSpace d r] kwds
            = Return (Params (Integer (Posz d)) (Ring r)),
          normalize [:: FreeModule d r] kwds
            = Return (Params (Integer (Posz d)) (Ring r)),
          normalize [:: Integer (Posz d); Ring r] kwds
            = Return (Params (Integer (Posz d)) (Ring r))
        & FiniteField q (kwds_get kwds "var" "a") = Return r ->
          normalize [:: Integer (Posz d); Integer q] kwds
            = Return (Params (Integer (Posz d)) (Ring r))]].
Proof.
move=> ev; have [ok _] := evolves_ok cache_ok_empty ev.
split=> [args1 kwds1 args2 kwds2 d r g1 w1 w2 nf1 nf2 call1 ev12|g h p pg ph|].
- have [ok1 _] := classcall_ok ok call1.
  have [_ mono] := evolves_ok ok1 ev12.
  have hit := mono _ _ (classcall_params ok nf1 call1).
  by rewrite /__classcall__ nf2 /= /cached_classcall hit.
- case: ok => _ ok2.
  by have := ok2 _ _ pg; rewrite (ok2 _ _ ph) => -[].
- by move=> d r q kwds; split=> //= ->.
Qed.

(** C8 (amended): with [Group.__init__] accepting any base, as it
    does, a call with two arguments raises an error only when the ring
    argument is an integer that the finite field constructor rejects,
    and the error is that constructor's; neither the degree nor a ring
    argument that is not an integer is validated: whatever they are,
    construction succeeds and the instance records both as given. *)
Theorem classcall_validation (w : world ring) (degree : pyobj ring) kwds :
  evolves empty_world w -> (forall base0, Group_init base0 = Return tt) ->
  [/\ forall q e,
        FiniteField q (kwds_get kwds "var" "a") = Raise e ->
        classcall [:: degree; Integer q] kwds w = Raise e,
      forall ring0 e,
        classcall [:: degree; ring0] kwds w = Raise e ->
        exists2 q, ring0 = Integer q
                 & FiniteField q (kwds_get kwds "var" "a") = Raise e,
      forall q r,
        FiniteField q (kwds_get kwds "var" "a") = Return r ->
        exists g w',
          classcall [:: degree; Integer q] kwds w = Return (g, w') /\
          params_of w' g = Some (degree, Ring r)
    & forall ring0,
        (if ring0 is Integer _ then false else true) ->
        exists g w',
          classcall [:: degree; ring0] kwds w = Return (g, w') /\
          params_of w' g = Some (degree, ring0)].
Proof.
move=> ev init; have [ok _] := evolves_ok cache_ok_empty ev.
have built d r : exists g w',
    cached d r w = Return (g, w') /\ params_of w' g = Some (d, r).
  have [[g w'] call] : exists res, cached d r w = Return res.
    rewrite /cached_classcall; case: (get _ _) => [h|]; first by eexists.
    by rewrite /__init__ init /=; eexists.
  exists g, w'; split=> //.
  have [[ok1 _] hit _] := cached_classcall_ok ok call.
  exact: ok1.
have notint ring0 : (if ring0 is Integer _ then false else true) ->
    classcall [:: degree; ring0] kwds w = cached degree ring0 w.
  by rewrite /__classcall__ /=; case: ring0.
split=> [q e ff|ring0 e|q r ff|ring0 /notint ->]; last exact: built.
- by rewrite /__classcall__ /= ff.
- case int: (if ring0 is Integer _ then false else true).
    by rewrite notint //; have [g' [w' [-> _]]] := built degree ring0.
  case: ring0 int => // q _; rewrite /__classcall__ /=.
  case ff: (FiniteField _ _) => [r|e'] /=; last by case=> <-; exists q.
  by have [g' [w' [-> _]]] := built degree (Ring r).
- by rewrite /__classcall__ /= ff /=; exact: built.
Qed.

End ConstructionTheory.

(** ** The constructions of the docstrings *)

Section ConstructionExamples.

Import Examples.

Lemma sage_ring_eqbP r1 r2 : reflect (r1 = r2) (sage_ring_eqb r1 r2).
Proof.
case: r1 r2 => [||q1 var1] [||q2 var2] /=; try by constructor.
by apply: (iffP andP) => [[/eqP-> /String.eqb_spec->]|[-> ->]] //;
   split=> //; apply/String.eqb_spec.
Qed.

(** [AffineGroup(A) is AffineGroup(2,4)] for [A = AffineSpace(2, GF(4,'a'))]. *)
Lemma classcall_unique_witness :
  exists g w1,
    AffineGroup_call [:: AffineSpace 2 (GF 4 "a")] [::] empty_world
      = Return (g, w1) /\
    AffineGroup_call [:: Integer 2; Integer 4] [::] w1 = Return (g, w1).
Proof.
have [same _ _] :=
  classcall_unique (FiniteField := FiniteField) (Group_init := Group_init)
    sage_ring_eqbP (evolves_refl _ _ _ empty_world).
do 2!eexists; split; first by [].
apply: (same [:: AffineSpace 2 (GF 4 "a")] [::] _ _
          (Integer 2) (Ring (GF 4 "a"))) => //.
exact: evolves_refl.
Defined.

(** [AffineGroup(-1, QQ)] and [AffineGroup('x', QQ)] are built, with a
    degree that is negative or not an integer, and so is
    [AffineGroup(2, 'foo')], with a ring argument that is neither a ring
    nor a prime power: no error is raised. *)
Lemma classcall_validation_counterexample :
  [/\ AffineGroup_call [:: Integer (-1); Ring QQ] [::] empty_world
        = Return (0%N, World [:: ((Integer (-1), Ring QQ), 0%N)]
                             [:: Instance (Integer (-1)) (Ring QQ)]),
      is_Return (AffineGroup_call [:: Str "x"; Ring QQ] [::] empty_world)
    & AffineGroup_call [:: Integer 2; Str "foo"] [::] empty_world
        = Return (0%N, World [:: ((Integer 2, Str "foo"), 0%N)]
                             [:: Instance (Integer 2) (Str "foo")])].
Proof. by []. Qed.

(** [AffineGroup(-1, 'foo')] is built and keeps both arguments, and
    [AffineGroup(2, 6)] raises the error of [FiniteField]. *)
Lemma classcall_validation_witness :
  (exists g w',
     AffineGroup_call [:: Integer (-1); Str "foo"] [::] empty_world
       = Return (g, w') /\
     params_of w' g = Some (Integer (-1), Str "foo")) /\
  AffineGroup_call [:: Integer 2; Integer 6] [::] empty_world
    = Raise (ValueError "the order of a finite field must be a prime power").
Proof.
have [_ _ _ built] :=
  classcall_validation (FiniteField := FiniteField) (Group_init := Group_init)
    sage_ring_eqbP (Integer (-1)) [::] (evolves_refl _ _ _ empty_world)
    (fun _ => erefl _).
have [refused _ _ _] :=
  classcall_validation (FiniteField := FiniteField) (Group_init := Group_init)
    sage_ring_eqbP (Integer 2) [::] (evolves_refl _ _ _ empty_world)
    (fun _ => erefl _).
by split; [exact: (built (Str "foo")) | exact: refused].
Defined.

End ConstructionExamples.

(** ** Pickling round trip of a class made by [metaclass] *)

Section PicklingTheory.

Variable type_new_check : string -> seq nat -> exc unit.

Notation metaclass := (metaclass type_new_check).
Notation roundtrip := (roundtrip type_new_check).
Notation load := (load type_new_check).
Notation refused := (refused type_new_check).
Notation dflt := (ClassObject type_ "" None).

Lemma set_nth_last (T : Type) (x0 a a' : T) (s : seq T) :
  set_nth x0 (rcons s a) (size s) a' = rcons s a'.
Proof. by elim: s => [|x s IH] //=; rewrite IH. Qed.

(** What a successful call of [metaclass] does to the state. *)
Lemma metaclass_ok name bases st :
  type_new_check name bases = Return tt ->
  metaclass name bases st =
    (Return (size (heap st)),
     State (rcons (heap st)
              (ClassObject Metaclass name (Some (name, bases))))
           (rcons (stdout st) "constructing class")).
Proof. by move=> ok; rewrite /ClassPickling.metaclass ok /= set_nth_last. Qed.

Lemma metaclass_inv name bases st c st1 :
  metaclass name bases st = (Return c, st1) ->
  type_new_check name bases = Return tt.
Proof.
by rewrite /ClassPickling.metaclass; case: (type_new_check _ _) => // -[].
Qed.

(** A tuple of classes is equal to itself without any call of [__eq__]. *)
Lemma tuple_eq_refl item_eq (s : seq nat) st :
  tuple_eq item_eq s s st = (Return true, st).
Proof. by elim: s => [|x s IH] //=; rewrite eqxx. Qed.

Lemma getobj_rcons h out (o : class_object) :
  getobj (State (rcons h o) out) (size h) = o.
Proof. by rewrite /getobj /= nth_rcons ltnn eqxx. Qed.

Lemma getobj_rcons2 h out (o1 o2 : class_object) :
  getobj (State (rcons (rcons h o1) o2) out) (size h) = o1.
Proof. by rewrite /getobj /= !nth_rcons size_rcons ltnS leqnn ltnn eqxx. Qed.

(** A relation that holds item by item may be weakened on the items of
    the first tuple. *)
Lemma all2_mono (r r' : nat -> nat -> bool) (p : pred nat) (s t : seq nat) :
  (forall x y, p x -> r x y -> r' x y) -> all p s ->
  all2 r s t -> all2 r' s t.
Proof.
move=> rr'; elim: s t => [|x s IH] [|y t] //= /andP [px ps] /andP [rxy rst].
by rewrite (rr' _ _ px rxy) IH.
Qed.

(** [class_eqb] holds with more fuel and on a larger heap, and only
    between classes that are on the heap. *)
Lemma class_eqb_fuel f m h c c' :
  class_eqb f h c c' -> class_eqb (f + m) h c c'.
Proof.
elim: f c c' => [|f IH] c c' //=.
case: (nth _ h c) => [[] // _ [[name bases]|]] //.
case: (nth _ h c') => [[] // _ [[name' bases']|]] //.
case/andP=> -> /=; apply: (@all2_mono _ _ predT) => [x y _|]; last exact: all_predT.
by case/orP=> [->|/IH ->] //; rewrite orbT.
Qed.

Lemma class_eqb_leq f f' h c c' :
  (f <= f')%N -> class_eqb f h c c' -> class_eqb f' h c c'.
Proof. by move=> /subnKC <-; exact: class_eqb_fuel. Qed.

Lemma class_eqb_size f h c c' :
  class_eqb f h c c' -> (c < size h)%N /\ (c' < size h)%N.
Proof.
case: f => [|f] //= H; split; rewrite ltnNge; apply/negP => le; move: H.
  by rewrite (nth_default _ le).
by rewrite [nth _ h c'](nth_default _ le); case: (nth _ h c) => [[] // _ [[? ?]|]].
Qed.

Lemma class_eqb_ext f h extra c c' :
  class_eqb f h c c' -> class_eqb f (h ++ extra) c c'.
Proof.
elim: f c c' => [|f IH] c c' // H.
have [lt lt'] := class_eqb_size H.
move: H; rewrite /= !nth_cat lt lt'.
case: (nth _ h c) => [[] // _ [[name bases]|]] //.
case: (nth _ h c') => [[] // _ [[name' bases']|]] //.
case/andP=> -> /=; apply: (@all2_mono _ _ predT) => [x y _|]; last exact: all_predT.
by case/orP=> [->|/IH ->] //; rewrite orbT.
Qed.

Lemma class_eqbS f h c c' name bases name' bases' :
  ob_type (nth dflt h c) = Metaclass ->
  reduce_args (nth dflt h c) = Some (name, bases) ->
  ob_type (nth dflt h c') = Metaclass ->
  reduce_args (nth dflt h c') = Some (name', bases') ->
  class_eqb f.+1 h c c' =
    String.eqb name name' &&
    all2 (fun b b' => (b == b') || class_eqb f h b b') bases bases'.
Proof.
rewrite /=; case: (nth _ h c) => [t nm a] /= -> ->.
by case: (nth _ h c') => [t' nm' a'] /= -> ->.
Qed.

Lemma class_eqb_inv f h c c' :
  class_eqb f.+1 h c c' ->
  exists name bases bases',
    [/\ ob_type (nth dflt h c) = Metaclass,
        reduce_args (nth dflt h c) = Some (name, bases),
        ob_type (nth dflt h c') = Metaclass,
        reduce_args (nth dflt h c') = Some (name, bases')
      & all2 (fun b b' => (b == b') || class_eqb f h b b') bases bases'].
Proof.
rewrite /=; case: (nth _ h c) => [[] // nm [[name bases]|]] //.
case: (nth _ h c') => [[] // nm' [[name' bases']|]] //.
by case/andP=> /String.eqb_spec <- ?; exists name, bases, bases'.
Qed.

Lemma getobjE st c : getobj st c = nth dflt (heap st) c.
Proof. by []. Qed.

(** [Metaclass.__eq__] answers [True] on two classes that [class_eqb]
    finds equal, and leaves the heap as it is. *)
Lemma class_eqb_eq f fuel c c' st :
  (f <= fuel)%N -> class_eqb f (heap st) c c' ->
  exists st', Metaclass__eq__ fuel c c' st = (Return true, st') /\
              heap st' = heap st.
Proof.
elim: f fuel c c' st => [|f IH] [|fuel] c c' st // le.
case/class_eqb_inv=> name [bases [bases' [t1 a1 t2 a2 eqs]]].
rewrite /= !getobjE /= t1 t2 a1 a2 /= String.eqb_refl.
set item := (X in tuple_eq X); move=> {a1 a2 t1 t2}.
have : forall st1, heap st1 = heap st ->
    exists st', tuple_eq item bases bases' st1 = (Return true, st') /\
                heap st' = heap st.
  elim: bases bases' eqs => [|x s IHs] [|y s'] //= => [_ st1 h1|].
    by exists st1.
  case/andP=> xy eqs st1 h1; case: eqP xy => [_ _|_ /= xy]; first exact: IHs.
  have [st2 [e2 h2]] : exists st2, item x y st1 = (Return true, st2) /\
                                   heap st2 = heap st.
    have xy1 : class_eqb f (heap st1) x y by rewrite h1.
    have [st2 [e2 h2]] := IH fuel x y st1 le xy1.
    exists st2; split; last by rewrite h2.
    rewrite /item !getobjE h1 {xy1}.
    have : ob_type (nth dflt (heap st) x) = Metaclass.
      by case: (f) xy => [|f'] // /class_eqb_inv [? [? [? [-> _ _ _ _]]]].
    by move=> ->.
  by rewrite e2; exact: IHs.
by apply.
Qed.

Local Open Scope seq_scope.

Notation load_spec := (load_spec type_new_check).

Lemma heap_ext_refl h : heap_ext h h.
Proof. by exists [::]; rewrite cats0. Qed.

Lemma heap_ext_trans h1 h2 h3 :
  heap_ext h1 h2 -> heap_ext h2 h3 -> heap_ext h1 h3.
Proof. by case=> e1 -> [e2 ->]; exists (e1 ++ e2); rewrite catA. Qed.

Lemma heap_ext_size h h' : heap_ext h h' -> (size h <= size h')%N.
Proof. by case=> e ->; rewrite size_cat leq_addr. Qed.

Lemma heap_ext_nth h h' c :
  heap_ext h h' -> (c < size h)%N -> nth dflt h' c = nth dflt h c.
Proof. by case=> e -> lt; rewrite nth_cat lt. Qed.

Lemma related_ext n0 h h' b b' :
  heap_ext h h' -> (b < size h)%N -> related n0 h b b' -> related n0 h' b b'.
Proof.
move=> ext lt; rewrite /related (heap_ext_nth ext lt).
case: (ob_type _) => // /andP [eq ->]; rewrite andbT.
by case: ext => e ->; exact: class_eqb_ext.
Qed.

Lemma memo_ok_ext n0 h h' memo table :
  heap_ext h h' -> memo_ok n0 h memo table -> memo_ok n0 h' memo table.
Proof.
case=> e -> [keys ok]; split=> // k k' /ok [lt eq new]; split=> //.
exact: class_eqb_ext.
Qed.

Lemma memo_get_mem table k :
  k \in [seq p.1 | p <- table] -> exists k', memo_get table k = Some k'.
Proof.
elim: table => [|[k1 c1] table IH] //=; rewrite in_cons.
case: (k1 =P k) => [_ _|/eqP ne]; first by exists c1.
by rewrite eq_sym (negPf ne).
Qed.

Lemma all2_related_ext n0 h h' cs cs' :
  heap_ext h h' -> all (fun b => b < size h)%N cs ->
  all2 (related n0 h) cs cs' -> all2 (related n0 h') cs cs'.
Proof.
move=> ext; elim: cs cs' => [|b cs IH] [|b' cs'] //= /andP [lt lts] /andP [r rs].
by rewrite (related_ext ext lt r) IH.
Qed.

Lemma all2_cat (T : Type) (r : T -> T -> bool) (s1 s2 t1 t2 : seq T) :
  all2 r s1 t1 -> all2 r s2 t2 -> all2 r (s1 ++ s2) (t1 ++ t2).
Proof.
by elim: s1 t1 => [|x s1 IH] [|y t1] //= /andP [-> r1] r2; rewrite IH.
Qed.

Lemma all2_size (T : Type) (r : T -> T -> bool) (s t : seq T) :
  all2 r s t -> size s = size t.
Proof. by elim: s t => [|x s IH] [|y t] //= /andP [_ /IH ->]. Qed.

(** The unpickler on nothing, and on two runs of instructions. *)
Lemma load_spec_nil h memo : load_spec h memo memo [::] [::].
Proof.
move=> rest stack table st2 ext ok; right; exists [::], table, st2.
by split=> //; exact: heap_ext_refl.
Qed.

Lemma load_spec_cat h m1 m2 m3 ops1 ops2 cs1 cs2 :
  all (fun b => b < size h)%N cs1 ->
  load_spec h m1 m2 ops1 cs1 -> load_spec h m2 m3 ops2 cs2 ->
  load_spec h m1 m3 (ops1 ++ ops2) (cs1 ++ cs2).
Proof.
move=> lt1 spec1 spec2 rest stack table st2 ext ok; rewrite -catA.
case: (spec1 (ops2 ++ rest) stack table st2 ext ok) => [[e [st3 [-> ref]]]|].
  by left; exists e, st3.
case=> cs1' [table1 [st3 [-> ext3 ok3 r1]]].
have ext13 := heap_ext_trans ext ext3.
case: (spec2 rest (rev cs1' ++ stack) table1 st3 ext13 ok3)
    => [[e [st4 [-> ref]]]|]; first by left; exists e, st4.
case=> cs2' [table2 [st4 [-> ext4 ok4 r2]]].
right; exists (cs1' ++ cs2'), table2, st4; split=> //.
- by rewrite rev_cat catA.
- exact: heap_ext_trans ext3 ext4.
- apply: all2_cat r2; apply: all2_related_ext r1 => //.
  by apply: sub_all lt1 => b lt; apply: leq_trans lt (heap_ext_size ext13).
Qed.

(** The unpickler on each instruction. *)
Lemma load_spec_global h memo c :
  (c < size h)%N -> ob_type (nth dflt h c) = type_ ->
  load_spec h memo memo [:: GLOBAL c] [:: c].
Proof.
move=> lt plain rest stack table st2 ext ok; right; exists [:: c], table, st2.
split=> //=; first exact: heap_ext_refl.
by rewrite /related (heap_ext_nth ext lt) plain eqxx.
Qed.

Lemma load_spec_get h memo c :
  c \in memo -> load_spec h memo memo [:: GET c] [:: c].
Proof.
move=> cm rest stack table st2 ext ok; right.
have [keys entries] := ok.
have [c' get] : exists c', memo_get table c = Some c'.
  by apply: memo_get_mem; rewrite keys.
have [lt eq new] := entries _ _ get.
exists [:: c'], table, st2; split=> //=; rewrite ?get //.
  exact: heap_ext_refl.
have [_ [_ [_ [tc _ _ _ _]]]] := class_eqb_inv eq.
by rewrite /related tc eq new.
Qed.

Lemma load_spec_reduce h memo memo1 ops c name bases :
  (c < size h)%N -> ob_type (nth dflt h c) = Metaclass ->
  reduce_args (nth dflt h c) = Some (name, bases) ->
  all (fun b => b < c)%N bases ->
  load_spec h memo memo1 ops bases ->
  load_spec h memo (c :: memo1) (rcons ops (REDUCE c name (size bases))) [:: c].
Proof.
move=> lt tc ac ltb spec rest stack table st2 ext ok.
rewrite -cats1 -catA /=.
case: (spec (REDUCE c name (size bases) :: rest) stack table st2 ext ok)
    => [[e [st3 [-> ref]]]|]; first by left; exists e, st3.
case=> bases' [table1 [st3 [-> ext3 [keys1 entries1] rel]]] /=.
have sz := all2_size rel.
rewrite size_cat size_rev -sz ltnNge leq_addr /=.
rewrite take_size_cat ?size_rev // drop_size_cat ?size_rev // revK.
rewrite /ClassPickling.metaclass.
case chk: (type_new_check name bases') => [[]|e] /=; last first.
  by left; eexists; eexists; split; first by []; exists name, bases'.
rewrite set_nth_last; set o := ClassObject Metaclass name _.
set st4 := State _ _; right; exists [:: size (heap st3)], ((c, size (heap st3)) :: table1), st4.
have ext13 := heap_ext_trans ext ext3.
have ext34 : heap_ext (heap st3) (heap st4) by exists [:: o]; rewrite /= cats1.
have ext14 := heap_ext_trans ext13 ext34.
have new : (size h <= size (heap st3))%N := heap_ext_size ext13.
have eq : class_eqb c.+1 (heap st4) c (size (heap st3)).
  have t1 : ob_type (nth dflt (heap st4) c) = Metaclass.
    by rewrite (heap_ext_nth ext14 lt).
  have a1 : reduce_args (nth dflt (heap st4) c) = Some (name, bases).
    by rewrite (heap_ext_nth ext14 lt).
  have t2 : ob_type (nth dflt (heap st4) (size (heap st3))) = Metaclass.
    by rewrite /= nth_rcons ltnn eqxx.
  have a2 : reduce_args (nth dflt (heap st4) (size (heap st3)))
            = Some (name, bases').
    by rewrite /= nth_rcons ltnn eqxx.
  rewrite (class_eqbS _ t1 a1 t2 a2) String.eqb_refl /=.
  apply: (all2_mono _ ltb rel) => b b' bc.
  move=> /(related_ext ext34 (leq_trans (ltn_trans bc lt) new)).
  rewrite /related; case: (ob_type _) => [/eqP->|/andP [eq _]].
    by rewrite eqxx.
  by rewrite (class_eqb_leq _ eq) ?orbT.
split=> //=.
- exact: heap_ext_trans ext3 ext34.
- split=> /= [|k k' ]; first by rewrite keys1.
  case: (c =P k) => [<- [<-]|_ /entries1 [ltk eqk newk]]; first by split.
  by split=> //; rewrite -cats1; exact: (class_eqb_ext [:: o] eqk).
- by rewrite /related (heap_ext_nth ext14 lt) tc eq new.
Qed.

(** The invariant of the heap only reads the heap. *)
Lemma heap_ok_heap st st' : heap st' = heap st -> heap_ok st -> heap_ok st'.
Proof. by move=> eqh ok c; rewrite !getobjE eqh; exact: ok. Qed.

(** [metaclass] keeps the invariant when the bases are classes of the
    heap. *)
Lemma heap_ok_metaclass name bases st c st1 :
  heap_ok st -> all (fun b => b < size (heap st))%N bases ->
  metaclass name bases st = (Return c, st1) -> heap_ok st1.
Proof.
move=> ok ltb made; have chk := metaclass_inv made.
move: made; rewrite (metaclass_ok _ chk) => -[_ <-] b.
rewrite getobjE /= nth_rcons; case: ltngtP => [lt|gt|->] //=.
  by rewrite -getobjE; exact: ok.
by move=> _; exists name, bases.
Qed.

(** The pickler on a tuple returns when the pickler on each item does. *)
Lemma save_all_spec
    (sv : nat -> seq nat -> state -> exc (seq instruction * seq nat) * state)
    h bound cs memo0 st0 :
  (forall b memo st, heap st = h -> (b < bound)%N ->
     exists ops memo' st',
       [/\ sv b memo st = (Return (ops, memo'), st'), heap st' = h
         & load_spec h memo memo' ops [:: b]]) ->
  (bound <= size h)%N -> heap st0 = h -> all (fun b => b < bound)%N cs ->
  exists ops memo' st',
    [/\ save_all sv cs memo0 st0 = (Return (ops, memo'), st'), heap st' = h
      & load_spec h memo0 memo' ops cs].
Proof.
move=> svP le; elim: cs memo0 st0 => [|b cs IHcs] memo0 st0 h0 /=.
  by move=> _; exists [::], memo0, st0; split=> //; exact: load_spec_nil.
case/andP=> bc ltcs.
have [ops1 [memo1 [st2 [-> h2 spec1]]]] := svP b memo0 st0 h0 bc.
have [ops2 [memo2 [st3 [-> h3 spec2]]]] := IHcs memo1 st2 h2 ltcs.
exists (ops1 ++ ops2), memo2, st3; split=> //.
rewrite -cat1s; apply: load_spec_cat spec2 => //=.
by rewrite (leq_trans bc le).
Qed.

(** The pickler returns on a heap that meets the invariant, given fuel
    beyond the class pickled, and the unpickler on what it wrote rebuilds
    the class. *)
Lemma saveP fuel c memo st :
  heap_ok st -> (c < fuel)%N -> (c < size (heap st))%N ->
  exists ops memo' st',
    [/\ save fuel c memo st = (Return (ops, memo'), st'),
        heap st' = heap st
      & load_spec (heap st) memo memo' ops [:: c]].
Proof.
elim: fuel c memo st => [|fuel IH] c memo st // ok ltf lt /=.
case: ifP => [cm|_].
  by exists [:: GET c], memo, st; split=> //; exact: load_spec_get.
case tc: (ob_type (getobj st c)).
  by exists [:: GLOBAL c], memo, st; split=> //; exact: load_spec_global.
have [name [bases [ac ltb]]] := ok _ tc.
rewrite /Metaclass__reduce__ getobjE /= -getobjE ac.
set st1 := print _ st.
have [] := @save_all_spec (save fuel) (heap st) c bases memo st1 _ (ltnW lt)
             (erefl _) ltb.
  move=> b memo0 st0 h0 bc; rewrite -h0; apply: IH.
  - exact: heap_ok_heap ok.
  - exact: leq_trans bc ltf.
  - by rewrite h0; exact: ltn_trans bc lt.
move=> ops [memo1 [st2 [-> h2 spec]]].
exists (rcons ops (REDUCE c name (size bases))), (c :: memo1), st2.
by split=> //; exact: load_spec_reduce spec.
Qed.

(** The pickle of a class of type [Metaclass]: the reduce hook is called
    first, and the pickle is that of the bases followed by the call of
    [metaclass] on the name and as many bases. *)
Lemma dumpsP fuel c name bases st :
  heap_ok st -> (c < fuel)%N ->
  ob_type (getobj st c) = Metaclass ->
  reduce_args (getobj st c) = Some (name, bases) ->
  exists ops memo st',
    [/\ save_all (save fuel.-1) bases [::] (print "reducing a class" st)
          = (Return (ops, memo), st'),
        dumps fuel c st
          = (Return (rcons ops (REDUCE c name (size bases))), st'),
        heap st' = heap st
      & load_spec (heap st) [::] (c :: memo)
          (rcons ops (REDUCE c name (size bases))) [:: c]].
Proof.
case: fuel => [|fuel] // ok ltf tc ac.
have lt : (c < size (heap st))%N.
  by move: tc; rewrite getobjE; case: ltnP => // le; rewrite nth_default.
have [nm [bs [ac' ltb]]] := ok _ tc.
move: ac' ltb; rewrite ac => -[_ <-] ltb {nm bs}.
set st1 := print _ st.
have [] := @save_all_spec (save fuel) (heap st) c bases [::] st1 _ (ltnW lt)
             (erefl _) ltb.
  move=> b memo0 st0 h0 bc; rewrite -h0; apply: saveP.
  - exact: heap_ok_heap ok.
  - exact: leq_trans bc ltf.
  - by rewrite h0; exact: ltn_trans bc lt.
move=> ops [memo1 [st2 [sv h2 spec]]].
exists ops, memo1, st2; split=> //.
- by rewrite /dumps /= tc /Metaclass__reduce__ getobjE /= -getobjE ac sv.
- exact: load_spec_reduce spec.
Qed.

(** Bases that are plain classes are pickled by reference, and the
    unpickler pushes them as they are. *)
Lemma save_all_plain f bases st :
  all (fun b => b < f)%N bases ->
  (forall b, b \in bases -> ob_type (getobj st b) = type_) ->
  save_all (save f) bases [::] st = (Return ([seq GLOBAL b | b <- bases], [::]), st).
Proof.
elim: bases => [|b bases IH] //= /andP [bf ltf] plain.
case: f bf ltf IH => [|f] // _ ltf IH /=.
by rewrite plain ?mem_head // IH // => b' b'in; rewrite plain // inE b'in orbT.
Qed.

Lemma load_globals bases rest stack table st :
  load ([seq GLOBAL b | b <- bases] ++ rest) stack table st
    = load rest (rev bases ++ stack) table st.
Proof.
elim: bases stack => [|b bases IH] stack //=.
by rewrite IH rev_cons cat_rcons.
Qed.

Lemma getobj_print line st c : getobj (print line st) c = getobj st c.
Proof. by []. Qed.


End PicklingTheory.

Section PicklingExamples.

Import Examples.

Lemma heap_ok_foo_state : heap_ok foo_state.
Proof.
move=> [|[|[|c]]] //=; first by exists "foo", [:: 0; 1]%N.
by rewrite /getobj /= nth_nil.
Qed.


End PicklingExamples.


(** * Further properties of the element constructors *)

Section ReflectionGeometry.

Variable R : comUnitRingType.
Variable n : nat.
Variable vector_like : Type.
Variable vector_space_call : vector_like -> exc 'cV[R]_n.

Notation reflection d := (@reflection R n d _ vector_space_call).

(** A reflection that is returned comes from a vector with invertible
    squared norm and is the Householder element of that vector. *)
Lemma reflection_inv division x g :
  reflection division x = Return g ->
  exists v, [/\ vector_space_call x = Return v, norm2 v \is a GRing.unit
              & g = Element (householder v (2%:R / norm2 v)) 0].
Proof.
rewrite /AffineGroup.reflection; case xv: (vector_space_call x) => [v|] //=.
rewrite /ring_div; case: division; last by case: (norm2 v == 0).
case U: (norm2 v \is a GRing.unit) => //=.
rewrite /element_class /_element_constructor_check.
rewrite householder_invertible ?divrK //= => -[<-].
by exists v.
Qed.

Lemma householder_on_axis (v : 'cV[R]_n) (c : R) :
  c * norm2 v = 2%:R -> householder v c *m v = - v.
Proof.
move=> c2; rewrite householderE mulmxBl mul1mx -scalemxAl -mulmxA norm2E.
rewrite mul_mx_scalar scalerA c2 -[2%:R]/(1 + 1) scalerDl scale1r opprD.
by rewrite addrA subrr add0r.
Qed.

Lemma householder_on_hyperplane (v w : 'cV[R]_n) (c : R) :
  v^T *m w = 0 -> householder v c *m w = w.
Proof.
move=> vw; rewrite householderE mulmxBl mul1mx -scalemxAl -mulmxA vw.
by rewrite mulmx0 scaler0 subr0.
Qed.

Lemma householder_sym (v : 'cV[R]_n) (c : R) :
  (householder v c)^T = householder v c.
Proof.
rewrite !householderE [LHS]linearB /= trmx1; congr (_ - _).
by rewrite [LHS]linearZ /= trmx_mul trmxK.
Qed.

(** X1: a reflection that [reflection(v)] returns sends [v] to [-v]. *)
Theorem reflection_negates_axis division x v g :
  vector_space_call x = Return v -> reflection division x = Return g ->
  act g v = - v.
Proof.
move=> xv /reflection_inv [v' []]; rewrite xv => -[<-] U ->.
by rewrite /act /= addr0 householder_on_axis // divrK.
Qed.

(** X2: a reflection that [reflection(v)] returns leaves every vector
    orthogonal to [v] where it is. *)
Theorem reflection_fixes_hyperplane division x v w g :
  vector_space_call x = Return v -> reflection division x = Return g ->
  v^T *m w = 0 -> act g w = w.
Proof.
move=> xv /reflection_inv [v' []]; rewrite xv => -[<-] U -> vw.
by rewrite /act /= addr0 householder_on_hyperplane.
Qed.

(** X3: the linear part of a reflection is a symmetric and orthogonal
    matrix, and its translation part is zero. *)
Theorem reflection_orthogonal division x g :
  reflection division x = Return g ->
  [/\ (A g)^T = A g, (A g)^T *m A g = 1%:M & b g = 0].
Proof.
case/reflection_inv=> v [_ U ->] /=; rewrite householder_sym.
by split=> //; rewrite householder_involutive // divrK.
Qed.

Lemma norm2_scale (a : R) (v : 'cV[R]_n) : norm2 (a *: v) = a ^+ 2 * norm2 v.
Proof.
rewrite /norm2 mulr_sumr; apply: eq_bigr => i _.
by rewrite mxE exprMn.
Qed.

(** X4: scaling the vector by an invertible scalar does not change what
    [reflection] does: the same element, or the same error. *)
Theorem reflection_scale division x y v (a : R) :
  vector_space_call x = Return v -> vector_space_call y = Return (a *: v) ->
  a \is a GRing.unit -> reflection division y = reflection division x.
Proof.
move=> xv yv Ua; have Ua2 : a ^+ 2 \is a GRing.unit by rewrite unitrX.
case: division; last first.
  rewrite (reflection_fraction_raises yv) (reflection_fraction_raises xv).
  by rewrite norm2_scale (mulrI_eq0 _ (mulrI Ua2)).
case U: (norm2 v \is a GRing.unit).
  have U' : norm2 (a *: v) \is a GRing.unit by rewrite norm2_scale unitrM Ua2.
  rewrite (reflection_unit yv U') (reflection_unit xv U).
  congr (Return (Element _ _)); rewrite !householderE; congr (_ - _).
  rewrite [(a *: v)^T]linearZ /= -scalemxAl -scalemxAr !scalerA.
  congr (_ *: _); rewrite -[_ * a * a]mulrA -expr2 norm2_scale invrM //.
  by rewrite -!mulrA mulVr // mulr1.
have U' : norm2 (a *: v) \isn't a GRing.unit by rewrite norm2_scale unitrM Ua2 U.
by rewrite (reflection_nonunit yv U') (reflection_nonunit xv (negbT U)).
Qed.

(** X6: over a base ring in which [2 = 0], a reflection that is returned
    is the identity element. *)
Theorem reflection_char2 division x g :
  2%:R = 0 :> R -> reflection division x = Return g -> g = one R n.
Proof.
move=> R2 /reflection_inv [v [_ U ->]].
by rewrite /one householderE R2 mul0r scale0r subr0.
Qed.

End ReflectionGeometry.

(** X5: in degree 0 the sum of squares is the empty sum, and
    [reflection] raises its [ValueError] on every vector. *)
Theorem reflection_degree0 (R : comUnitRingType) (vector_like : Type)
    (vector_space_call : vector_like -> exc 'cV[R]_0) division x v :
  vector_space_call x = Return v ->
  reflection division vector_space_call x
    = Raise (ValueError "v has norm zero").
Proof.
move=> xv; apply: (reflection_norm0 _ xv).
by rewrite /norm2 big_ord0.
Qed.

Section GroupStructure.

Variable R : comUnitRingType.
Variable n : nat.
Variables matrix_like vector_like : Type.
Variable matrix_space_call : matrix_like -> exc 'M[R]_n.
Variable vector_space_call : vector_like -> exc 'cV[R]_n.

Notation elt := (AffineGroupElement R n).
Notation linear := (linear matrix_space_call).
Notation translation := (@translation R n _ vector_space_call).

Lemma linear_invertible a (A0 : 'M[R]_n) :
  matrix_space_call a = Return A0 -> is_invertible A0 ->
  linear a = Return (Element A0 0).
Proof.
by move=> aA inv; rewrite /AffineGroup.linear aA /= /_element_constructor_check inv.
Qed.

Lemma translation_coerced x (b0 : 'cV[R]_n) :
  vector_space_call x = Return b0 ->
  translation x = Return (Element 1%:M b0).
Proof. by move=> xb; rewrite /AffineGroup.translation xb. Qed.

Lemma mul_one_l (g : elt) : mul (one R n) g = g.
Proof.
by case: g => A0 b0; rewrite /mul /one /= /matrix_space_one !mul1mx add0r.
Qed.

Lemma mul_one_r (g : elt) : mul g (one R n) = g.
Proof.
case: g => A0 b0.
by rewrite /mul /one /= /matrix_space_one /vector_space_zero mulmx1 mulmx0 addr0.
Qed.

Lemma mulA (g h k : elt) : mul g (mul h k) = mul (mul g h) k.
Proof. by rewrite /mul /= mulmxA mulmxDr mulmxA addrA. Qed.

(** X7: every pair [(A, b)] with [A] invertible is the product
    [translation(b) * linear(A)] of the two special constructors. *)
Theorem translation_linear_decomposition x a (A0 : 'M[R]_n) (b0 : 'cV[R]_n) :
  matrix_space_call a = Return A0 -> vector_space_call x = Return b0 ->
  is_invertible A0 ->
  exists t l, [/\ translation x = Return t, linear a = Return l
                & mul t l = Element A0 b0].
Proof.
move=> aA xb inv; rewrite (translation_coerced xb) (linear_invertible aA inv).
do 2!eexists; split; try by [].
by rewrite /mul /= mul1mx mulmx0 addr0.
Qed.

(** X8: moving a linear map across a translation turns [b] into [A b]:
    [linear(A) * translation(b) = translation(A b) * linear(A)]; the two
    commute exactly when [A b = b]. *)
Theorem linear_translation_exchange a x y (A0 : 'M[R]_n) (b0 : 'cV[R]_n) :
  matrix_space_call a = Return A0 -> vector_space_call x = Return b0 ->
  vector_space_call y = Return (A0 *m b0) -> is_invertible A0 ->
  exists l t t', [/\ linear a = Return l, translation x = Return t,
                     translation y = Return t', mul l t = mul t' l
                   & mul l t = mul t l <-> A0 *m b0 = b0].
Proof.
move=> aA xb yb inv.
rewrite (translation_coerced xb) (translation_coerced yb).
rewrite (linear_invertible aA inv).
do 3!eexists; split; try by [].
  by rewrite /mul /= mulmx1 mul1mx mulmx0 add0r addr0.
rewrite /mul /= mulmx1 mul1mx mulmx0 add0r addr0.
by split=> [[]|->].
Qed.

(** X9: [linear] is multiplicative: when [A] and [B] are invertible,
    [linear(A B)] is returned and equals [linear(A) * linear(B)]. *)
Theorem linear_mul a1 a2 a12 (A1 A2 : 'M[R]_n) :
  matrix_space_call a1 = Return A1 -> matrix_space_call a2 = Return A2 ->
  matrix_space_call a12 = Return (A1 *m A2) ->
  is_invertible A1 -> is_invertible A2 ->
  exists l1 l2, [/\ linear a1 = Return l1, linear a2 = Return l2
                  & linear a12 = Return (mul l1 l2)].
Proof.
move=> e1 e2 e12 inv1 inv2.
have inv12 : is_invertible (A1 *m A2).
  by rewrite /is_invertible unitmx_mul; apply/andP.
rewrite (linear_invertible e1 inv1) (linear_invertible e2 inv2).
rewrite (linear_invertible e12 inv12).
do 2!eexists; split; try by [].
by rewrite /mul /= mulmx0 addr0.
Qed.

(** X10: the membership check accepts the product of two elements that
    it accepts. *)
Theorem check_mul_closed (g h : elt) :
  _element_constructor_check (A g) (b g) = Return tt ->
  _element_constructor_check (A h) (b h) = Return tt ->
  _element_constructor_check (A (mul g h)) (b (mul g h)) = Return tt.
Proof.
rewrite /_element_constructor_check /is_invertible /= unitmx_mul.
by case: (A g \in unitmx) => //; case: (A h \in unitmx).
Qed.

(** X11: an element that the membership check accepts has a two-sided
    inverse that the check accepts as well. *)
Theorem check_inverse (g : elt) :
  _element_constructor_check (A g) (b g) = Return tt ->
  exists h, [/\ element_class (A h) (b h) true = Return h,
                mul g h = one R n & mul h g = one R n].
Proof.
rewrite /_element_constructor_check; case inv: (is_invertible (A g)) => //= _.
exists (Element (invmx (A g)) (- (invmx (A g) *m b g))); split.
- rewrite /element_class /_element_constructor_check /=.
  by rewrite {1}/is_invertible unitmx_inv -/(is_invertible (A g)) inv.
- by rewrite /mul /one /= mulmxV // mulmxN mulKVmx // subrr.
- by rewrite /mul /one /= mulVmx // addrC subrr.
Qed.

End GroupStructure.

Section Resampling.

Variable R : comUnitRingType.
Variable n : nat.

Implicit Types (first mA B : 'M[R]_n) (draws : nat -> 'M[R]_n).
Implicit Types (rb vb : 'cV[R]_n).

(** The loop stops at the first invertible draw. *)
Lemma resample_first fuel draws k B j :
  ~~ is_invertible B ->
  (forall i, (i < j)%N -> ~~ is_invertible (draws (k + i)%N)) ->
  is_invertible (draws (k + j)%N) -> (j < fuel)%N ->
  resample fuel draws k B = Some (draws (k + j)%N).
Proof.
elim: fuel k B j => [|fuel IH] k B j // /negPf sing0 sing inv jf /=.
rewrite sing0; case: j sing inv jf => [|j] sing inv jf.
  by rewrite addn0 in inv *; case: fuel {IH jf} => [|fuel] /=; rewrite inv.
rewrite -addSnnS; apply: IH; rewrite ?addSnnS //.
  by have := sing 0%N isT; rewrite addn0.
by move=> i ij; rewrite addSnnS; apply: sing.
Qed.

Lemma resample_all_singular fuel draws k B :
  ~~ is_invertible B -> (forall i, ~~ is_invertible (draws i)) ->
  resample fuel draws k B = None.
Proof.
elim: fuel k B => [|fuel IH] k B /negPf sing0 sing /=; rewrite sing0 //.
exact: IH.
Qed.

(** X12: when the first matrix drawn is invertible, [random_element] and
    [_an_element_] return it with the vector drawn, without any call of
    [randomize], whatever the later draws would be. *)
Theorem random_element_no_resampling fuel first draws rb :
  is_invertible first ->
  random_element fuel first draws rb = Some (Return (Element first rb)) /\
  _an_element_ fuel first draws rb = Some (Return (Element first rb)).
Proof.
by move=> inv; rewrite /random_element /_an_element_; case: fuel => [|fuel] /=;
   rewrite inv.
Qed.

(** X13: otherwise the linear part of the result is the first invertible
    matrix that [randomize] produces: with [draws j] invertible and all
    earlier matrices singular, the element returned is [(draws j, rb)]. *)
Theorem random_element_first_invertible fuel first draws rb j :
  ~~ is_invertible first ->
  (forall i, (i < j)%N -> ~~ is_invertible (draws i)) ->
  is_invertible (draws j) -> (j < fuel)%N ->
  random_element fuel first draws rb = Some (Return (Element (draws j) rb)) /\
  _an_element_ fuel first draws rb = Some (Return (Element (draws j) rb)).
Proof.
move=> sing0 sing inv jf; rewrite /random_element /_an_element_.
by rewrite (@resample_first fuel draws 0 first j).
Qed.

(** X14: when the generator only produces singular matrices, the loop of
    [random_element] and [_an_element_] is still running after any
    number of rounds: no element is ever returned and no error raised. *)
Theorem random_element_all_singular fuel first draws rb :
  ~~ is_invertible first -> (forall i, ~~ is_invertible (draws i)) ->
  random_element fuel first draws rb = None /\
  _an_element_ fuel first draws rb = None.
Proof.
move=> sing0 sing; rewrite /random_element /_an_element_.
by rewrite resample_all_singular.
Qed.

End Resampling.

(** X15: in degree 0 every matrix passes the membership check, so
    [linear] never raises on a coerced matrix and [random_element]
    returns its first draw. *)
Theorem degree0_always_invertible (R : comUnitRingType) (matrix_like : Type)
    (matrix_space_call : matrix_like -> exc 'M[R]_0) a (A0 : 'M[R]_0)
    fuel draws (rb : 'cV[R]_0) :
  matrix_space_call a = Return A0 ->
  [/\ is_invertible A0, linear matrix_space_call a = Return (Element A0 0)
    & random_element fuel A0 draws rb = Some (Return (Element A0 rb))].
Proof.
move=> aA; have inv : is_invertible A0.
  by rewrite /is_invertible unitmxE det_mx00 unitr1.
split=> //; first by rewrite /linear aA /= /_element_constructor_check inv.
by rewrite /random_element; case: fuel => [|fuel] /=; rewrite inv.
Qed.

Section LinearRepresentation.

Variable R : comUnitRingType.
Variable n : nat.

Notation elt := (AffineGroupElement R n).

(** X16: the matrix of an element in [linear_space()] acts on a lifted
    vector [(x, 1)] as the element acts on [x]. *)
Theorem lifted_matrix_act (g : elt) (x : 'cV[R]_n) :
  lifted_matrix g *m lifted_vector x = lifted_vector (act g x).
Proof.
rewrite /lifted_matrix /lifted_vector /act mul_block_col.
by rewrite !mulmx1 mul0mx add0r.
Qed.

(** X17: the matrix in [linear_space()] of a product is the product of
    the matrices, the identity element has the identity matrix, and the
    matrix is invertible exactly when the linear part is. *)
Theorem lifted_matrix_morphism (g h : elt) :
  [/\ lifted_matrix (mul g h) = lifted_matrix g *m lifted_matrix h,
      lifted_matrix (one R n) = 1%:M
    & (lifted_matrix g \in unitmx) = is_invertible (A g)].
Proof.
split.
- rewrite /lifted_matrix /mul /= mulmx_block.
  by rewrite !mulmx0 !mul0mx !mulmx1 !addr0 add0r [in LHS]addrC.
- by rewrite /lifted_matrix /one /= -scalar_mx_block.
- by rewrite /is_invertible !unitmxE det_ublock det1 mulr1.
Qed.

End LinearRepresentation.

(** * Further properties of construction *)

Section ConstructionFurther.

Variable ring : Type.
Variable ring_eqb : ring -> ring -> bool.
Variable FiniteField : int -> string -> exc ring.
Variable Group_init : pyobj ring -> exc unit.

Hypothesis ring_eqbP : forall r1 r2, reflect (r1 = r2) (ring_eqb r1 r2).

Notation classcall := (__classcall__ ring_eqb FiniteField Group_init).
Notation normalize := (normalize FiniteField).
Notation evolves := (evolves ring_eqb FiniteField Group_init).
Notation get := (cache_get ring_eqb).

(** X18: a call with no argument or with more than two raises
    [UnboundLocalError] (the name [degree] was never bound), and a call
    with one argument that is neither a group nor a space raises the
    [AttributeError] of [V.dimension()]; neither is a [TypeError]. *)
Theorem classcall_bad_arguments (args : seq (pyobj ring)) kwds w :
  [/\ size args != 1%N -> size args != 2 ->
        classcall args kwds w = Raise (UnboundLocalError "degree")
    & forall V, args = [:: V] ->
        (match V with Integer _ | Ring _ | Str _ => true | _ => false end) ->
        classcall args kwds w = Raise (AttributeError "dimension")].
Proof.
split=> [|V -> {args}]; first by case: args => [|V [|r [|x args]]].
by case: V.
Qed.

(** X19: of the keyword arguments only [var] is read, and only when the
    ring argument is an integer: two calls whose keywords agree on [var]
    behave alike, and when the arguments are not a pair with an integer
    in second place the keywords do not matter at all. *)
Theorem classcall_kwds (args : seq (pyobj ring)) kwds1 kwds2 w :
  [/\ kwds_get kwds1 "var" "a" = kwds_get kwds2 "var" "a" ->
        classcall args kwds1 w = classcall args kwds2 w
    & (forall d q, args <> [:: d; Integer q]) ->
        classcall args kwds1 w = classcall args kwds2 w].
Proof.
split=> [var12|notint]; rewrite /__classcall__.
  have -> // : normalize args kwds1 = normalize args kwds2.
  by case: args => [|V [|r [|x args]]] //=; rewrite var12.
have -> // : normalize args kwds1 = normalize args kwds2.
case: args notint => [|d [|r [|x args]]] //=.
by case: r => // q /(_ d q).
Qed.

(** X20: an instance, once built, stays: in every later world the same
    reference designates an instance with the same degree and base. *)
Theorem instances_persist (w w' : world ring) g p :
  evolves empty_world w -> evolves w w' ->
  params_of w g = Some p -> params_of w' g = Some p.
Proof.
move=> ev ev' pg.
have [ok _] := evolves_ok ring_eqbP (cache_ok_empty ring_eqb) ev.
have [[ok1' _] mono] := evolves_ok ring_eqbP ok ev'.
by apply: ok1'; apply: mono; case: ok => _; apply.
Qed.

(** X21: two calls whose arguments normalise to different pairs return
    different instances. *)
Theorem classcall_distinct_params (w : world ring)
    args1 kwds1 args2 kwds2 d1 r1 d2 r2 g1 w1 w2 g2 w3 :
  evolves empty_world w ->
  normalize args1 kwds1 = Return (Params d1 r1) ->
  normalize args2 kwds2 = Return (Params d2 r2) ->
  (d1, r1) <> (d2, r2) ->
  classcall args1 kwds1 w = Return (g1, w1) -> evolves w1 w2 ->
  classcall args2 kwds2 w2 = Return (g2, w3) ->
  g1 <> g2.
Proof.
move=> ev nf1 nf2 neq call1 ev12 call2 g12.
have [ok _] := evolves_ok ring_eqbP (cache_ok_empty ring_eqb) ev.
have [ok1 _] := classcall_ok ring_eqbP ok call1.
have [ok2 mono12] := evolves_ok ring_eqbP ok1 ev12.
have [[ok3 _] mono23] := classcall_ok ring_eqbP ok2 call2.
have hit1 := mono23 _ _ (mono12 _ _ (classcall_params ring_eqbP ok nf1 call1)).
have hit2 := classcall_params ring_eqbP ok2 nf2 call2.
have := ok3 _ _ hit1; rewrite g12 (ok3 _ _ hit2) => -[e1 e2].
by apply: neq; rewrite e1 e2.
Qed.

(** X22: the instance that a call returns carries the normalised
    arguments: [degree()] is the dimension of the space given, or the
    first argument as it was given, and the base is the ring. *)
Theorem classcall_records_params (w : world ring) args kwds d r g w' :
  evolves empty_world w ->
  normalize args kwds = Return (Params d r) ->
  classcall args kwds w = Return (g, w') ->
  params_of w' g = Some (d, r) /\ degree w' g = Some d.
Proof.
move=> ev nf call.
have [ok _] := evolves_ok ring_eqbP (cache_ok_empty ring_eqb) ev.
have [[ok1 _] _] := classcall_ok ring_eqbP ok call.
have pg := ok1 _ _ (classcall_params ring_eqbP ok nf call).
by rewrite /degree pg.
Qed.

End ConstructionFurther.

(** * Further properties of [metaclass] and [Metaclass] *)

Section PicklingFurther.

Variable type_new_check : string -> seq nat -> exc unit.

Notation metaclass := (metaclass type_new_check).

Lemma getobj_old h out (o : class_object) c :
  (c < size h)%N ->
  getobj (State (rcons h o) out) c = nth (ClassObject type_ "" None) h c.
Proof. by move=> lt; rewrite /getobj /= nth_rcons lt. Qed.

(** X23: [metaclass] prints its line first, whatever happens next; when
    the interpreter accepts the bases the class returned is a new
    object of type [Metaclass] whose [reduce_args] are the arguments of
    the call, and when it refuses them no class is added; the classes
    that existed are left as they were. *)
Theorem metaclass_fresh name bases st r st' :
  metaclass name bases st = (r, st') ->
  [/\ stdout st' = rcons (stdout st) "constructing class",
      forall c, (c < size (heap st))%N -> getobj st' c = getobj st c
    & match r with
      | Return c =>
          [/\ c = size (heap st), size (heap st') = (size (heap st)).+1
            & getobj st' c = ClassObject Metaclass name (Some (name, bases))]
      | Raise _ => heap st' = heap st
      end].
Proof.
rewrite /ClassPickling.metaclass; case ok: (type_new_check name bases) => [u|e].
  case=> <- <- /=; rewrite set_nth_last; split=> //.
    by move=> c lt; rewrite getobj_old.
  by rewrite size_rcons getobj_rcons.
by case=> <- <-.
Qed.

(** X24: two classes of type [Metaclass] that carry the same
    [reduce_args], a class and itself included, compare equal, and the
    comparison prints one line. *)
Theorem Metaclass_eq_same_args fuel c1 c2 args st :
  ob_type (getobj st c1) = Metaclass -> ob_type (getobj st c2) = Metaclass ->
  reduce_args (getobj st c1) = Some args ->
  reduce_args (getobj st c2) = Some args ->
  Metaclass__eq__ fuel.+1 c1 c2 st = (Return true, print eq_line st).
Proof.
case: args => name bases /= t1 t2 a1 a2.
by rewrite !getobj_print t1 t2 a1 a2 /= String.eqb_refl tuple_eq_refl.
Qed.

Lemma tuple_eq_plain item_eq (s1 s2 : seq nat) st :
  (forall x y, x \in s1 -> y \in s2 -> x != y ->
     item_eq x y st = (Return false, st)) ->
  tuple_eq item_eq s1 s2 st = (Return (s1 == s2), st).
Proof.
elim: s1 s2 => [|x s1 IH] [|y s2] //= item.
rewrite eqseq_cons; case: eqP => [_|/eqP xy] /=.
  by apply: IH => x' y' x1 y2; apply: item; rewrite in_cons ?x1 ?y2 orbT.
by rewrite item ?in_cons ?eqxx.
Qed.

(** X25: for two classes made over plain classes as bases,
    [Metaclass.__eq__] decides whether the names are equal and the
    tuples of bases consist of the same objects in the same order, and
    prints one line. *)
Theorem Metaclass_eq_plain_bases fuel c1 c2 name1 bases1 name2 bases2 st :
  ob_type (getobj st c1) = Metaclass -> ob_type (getobj st c2) = Metaclass ->
  reduce_args (getobj st c1) = Some (name1, bases1) ->
  reduce_args (getobj st c2) = Some (name2, bases2) ->
  all (fun x => pytype_is (ob_type (getobj st x)) type_) bases1 ->
  all (fun x => pytype_is (ob_type (getobj st x)) type_) bases2 ->
  Metaclass__eq__ fuel.+1 c1 c2 st =
    (Return (String.eqb name1 name2 && (bases1 == bases2)), print eq_line st).
Proof.
move=> t1 t2 a1 a2 /allP plain1 /allP plain2 /=.
rewrite !getobj_print t1 t2 a1 a2 /=; case: (String.eqb name1 name2) => //=.
apply: tuple_eq_plain => x y /plain1 + /plain2 + _; rewrite !getobj_print.
by case: (ob_type (getobj st x)) => //; case: (ob_type (getobj st y)).
Qed.

(** X26: [Metaclass.__eq__] answers [False], without looking at
    [reduce_args], when the two objects are not of the same type; when
    they are and one of them has no [reduce_args], the attribute lookup
    raises [AttributeError]. *)
Theorem Metaclass_eq_edges fuel self other st :
  [/\ pytype_is (ob_type (getobj st self)) (ob_type (getobj st other)) = false ->
        Metaclass__eq__ fuel.+1 self other st = (Return false, print eq_line st)
    & pytype_is (ob_type (getobj st self)) (ob_type (getobj st other)) ->
      reduce_args (getobj st self) = None \/
      reduce_args (getobj st other) = None ->
        Metaclass__eq__ fuel.+1 self other st =
          (Raise (AttributeError "reduce_args"), print eq_line st)].
Proof.
split=> [/= ->|/= ->] //; rewrite !getobj_print.
by case=> ->; [|case: (reduce_args _) => [[]|]].
Qed.

(** X27: the reduce hook gives back the arguments that the class was made
    with, now and after any later call of [metaclass], and it changes
    nothing but the printed lines. *)
Theorem reduce_returns_arguments name bases st c st1 name' bases' r st2 :
  metaclass name bases st = (Return c, st1) ->
  metaclass name' bases' st1 = (r, st2) ->
  Metaclass__reduce__ c st1 =
    (Return (name, bases), print "reducing a class" st1) /\
  Metaclass__reduce__ c st2 =
    (Return (name, bases), print "reducing a class" st2).
Proof.
move=> /metaclass_fresh [_ _ [cE sz c1]] /metaclass_fresh [_ old _].
rewrite /Metaclass__reduce__ !getobj_print old ?c1 //.
by rewrite sz cE.
Qed.

End PicklingFurther.

(** * Instances of the further properties *)

Section FurtherExamples.

Import Examples.

Notation reflection_Z4 := (reflection ExactDivision (@from_vector 'Z_4 2)).
Notation reflection_F2 := (reflection ExactDivision (@from_vector 'F_2 2)).
Notation linear_Z4 := (linear (@from_matrix 'Z_4 2)).
Notation translation_Z4 := (translation (@from_vector 'Z_4 2)).

Lemma norm2_v10_unit (R : comUnitRingType) : norm2 (v10 R) \is a GRing.unit.
Proof. by rewrite norm2_v10 unitr1. Qed.

Lemma reflection_v10_householder (R : comUnitRingType) :
  reflection ExactDivision (@from_vector R 2) (v10 R) =
    Return (Element (householder (v10 R) (2%:R / norm2 (v10 R))) 0).
Proof. exact: (reflection_unit (erefl _) (norm2_v10_unit R)). Qed.

Lemma v10_v02_orthogonal (R : comUnitRingType) : (v10 R)^T *m v02 R = 0.
Proof.
apply/matrixP => i j; rewrite !mxE big_ord_recl big_ord1 !mxE /=.
by rewrite mulr0 mul0r addr0.
Qed.

Lemma all_ones_singular (R : comUnitRingType) : ~~ is_invertible (all_ones R).
Proof. by rewrite /is_invertible unitmxE det_all_ones unitr0. Qed.

Lemma one_invertible (R : comUnitRingType) (n : nat) :
  is_invertible (1%:M : 'M[R]_n).
Proof. exact: unitmx1. Qed.

Lemma reflection_negates_axis_witness :
  act (Element (householder (v10 'Z_4) (2%:R / norm2 (v10 'Z_4))) 0) (v10 'Z_4)
    = - v10 'Z_4.
Proof.
exact: (reflection_negates_axis (erefl _) (reflection_v10_householder 'Z_4)).
Defined.

Lemma reflection_fixes_hyperplane_witness :
  act (Element (householder (v10 'Z_4) (2%:R / norm2 (v10 'Z_4))) 0) (v02 'Z_4)
    = v02 'Z_4.
Proof.
exact: (reflection_fixes_hyperplane (erefl _) (reflection_v10_householder 'Z_4)
          (v10_v02_orthogonal 'Z_4)).
Defined.

Lemma reflection_orthogonal_witness :
  (householder (v10 'Z_4) (2%:R / norm2 (v10 'Z_4)))^T
    *m householder (v10 'Z_4) (2%:R / norm2 (v10 'Z_4)) = 1%:M.
Proof.
by have [_ orth _] := reflection_orthogonal (reflection_v10_householder 'Z_4).
Defined.

Lemma reflection_scale_witness :
  reflection_Z4 (-1 *: v10 'Z_4) = reflection_Z4 (v10 'Z_4).
Proof.
exact: (@reflection_scale _ _ _ (@from_vector 'Z_4 2) ExactDivision
          (v10 _) (-1 *: v10 _) (v10 _) (-1) (erefl _) (erefl _) (unitrN1 _)).
Defined.

Lemma reflection_degree0_witness :
  reflection ExactDivision (@from_vector 'Z_4 0) 0
    = Raise (ValueError "v has norm zero").
Proof.
exact: (@reflection_degree0 _ _ (@from_vector 'Z_4 0) ExactDivision 0 0
          (erefl _)).
Defined.

Lemma reflection_char2_witness :
  Element (householder (v10 'F_2) (2%:R / norm2 (v10 'F_2))) 0 = one 'F_2 2.
Proof.
exact: (reflection_char2 two_F2 (reflection_v10_householder 'F_2)).
Defined.

Lemma translation_linear_decomposition_witness :
  exists t l, [/\ translation_Z4 (v11 'Z_4) = Return t,
                  linear_Z4 1%:M = Return l
                & mul t l = Element 1%:M (v11 'Z_4)].
Proof.
exact: (@translation_linear_decomposition _ _ _ _ (@from_matrix 'Z_4 2)
          (@from_vector 'Z_4 2) _ _ _ _ (erefl _) (erefl _)
          (one_invertible _ _)).
Defined.

Lemma neg_v10_Z4 : - v10 'Z_4 <> v10 'Z_4.
Proof. by move/matrixP/(_ 0 0); rewrite !mxE. Qed.

(** The reflection of [(1,0)] over [Z/4Z] and the translation by [(1,0)]:
    the exchange rule holds and the two do not commute. *)
Lemma linear_translation_exchange_witness :
  exists l t t',
    [/\ linear_Z4 (householder (v10 'Z_4) (2%:R / norm2 (v10 'Z_4)))
          = Return l,
        translation_Z4 (v10 'Z_4) = Return t,
        translation_Z4
          (householder (v10 'Z_4) (2%:R / norm2 (v10 'Z_4)) *m v10 'Z_4)
          = Return t',
        mul l t = mul t' l
      & mul l t <> mul t l].
Proof.
have c2 : 2%:R / norm2 (v10 'Z_4) * norm2 (v10 'Z_4) = 2%:R.
  by rewrite divrK // norm2_v10_unit.
pose H := householder (v10 'Z_4) (2%:R / norm2 (v10 'Z_4)).
have [l [t [t' [el et et' exch comm]]]] :=
  @linear_translation_exchange _ _ _ _ (@from_matrix 'Z_4 2)
    (@from_vector 'Z_4 2) H (v10 'Z_4) (H *m v10 'Z_4) H (v10 'Z_4)
    (erefl _) (erefl _) (erefl _) (householder_invertible c2).
exists l, t, t'; split=> // /comm.
by rewrite householder_on_axis //; exact: neg_v10_Z4.
Defined.

Lemma linear_mul_witness :
  exists l1 l2, [/\ linear_Z4 1%:M = Return l1, linear_Z4 1%:M = Return l2
                  & linear_Z4 (1%:M *m 1%:M) = Return (mul l1 l2)].
Proof.
exact: (@linear_mul _ _ _ (@from_matrix 'Z_4 2) _ _ _ _ _
          (erefl _) (erefl _) (erefl _)
          (one_invertible _ _) (one_invertible _ _)).
Defined.

Lemma check_one (R : comUnitRingType) (n : nat) (b0 : 'cV[R]_n) :
  _element_constructor_check (1%:M : 'M[R]_n) b0 = Return tt.
Proof. by rewrite /_element_constructor_check one_invertible. Qed.

Lemma check_mul_closed_witness :
  _element_constructor_check
    (A (mul (Element 1%:M (v10 'Z_4)) (Element 1%:M (v11 'Z_4))))
    (b (mul (Element 1%:M (v10 'Z_4)) (Element 1%:M (v11 'Z_4)))) = Return tt.
Proof.
exact: (@check_mul_closed _ _ (Element 1%:M (v10 'Z_4))
          (Element 1%:M (v11 'Z_4)) (check_one _) (check_one _)).
Defined.

Lemma check_inverse_witness :
  exists h, [/\ element_class (A h) (b h) true = Return h,
                mul (Element 1%:M (v10 'Z_4)) h = one 'Z_4 2
              & mul h (Element 1%:M (v10 'Z_4)) = one 'Z_4 2].
Proof.
exact: (@check_inverse _ _ (Element 1%:M (v10 'Z_4)) (check_one _)).
Defined.

Lemma random_element_no_resampling_witness :
  random_element 0 1%:M (always_singular 'Z_4) (v10 _)
    = Some (Return (Element 1%:M (v10 _))) /\
  _an_element_ 0 1%:M (always_singular 'Z_4) (v10 _)
    = Some (Return (Element 1%:M (v10 _))).
Proof.
exact: (random_element_no_resampling 0 (always_singular 'Z_4) (v10 _)
          (one_invertible _ _)).
Defined.

Lemma random_element_first_invertible_witness :
  random_element 2 (all_ones 'Z_4) (singular_then_one 'Z_4) (v10 _)
    = Some (Return (Element 1%:M (v10 _))) /\
  _an_element_ 2 (all_ones 'Z_4) (singular_then_one 'Z_4) (v10 _)
    = Some (Return (Element 1%:M (v10 _))).
Proof.
apply: (@random_element_first_invertible _ _ 2 _ (singular_then_one 'Z_4)
          (v10 _) 1) => //.
- exact: all_ones_singular.
- by case=> // _; exact: all_ones_singular.
- exact: one_invertible.
Defined.

Lemma random_element_all_singular_witness :
  random_element 5 (all_ones 'Z_4) (always_singular 'Z_4) (v10 _) = None /\
  _an_element_ 5 (all_ones 'Z_4) (always_singular 'Z_4) (v10 _) = None.
Proof.
apply: random_element_all_singular; first exact: all_ones_singular.
by move=> i; exact: all_ones_singular.
Defined.

Lemma degree0_always_invertible_witness :
  [/\ is_invertible (0 : 'M['Z_4]_0),
      linear (@from_matrix 'Z_4 0) 0 = Return (Element 0 0)
    & random_element 0 (0 : 'M['Z_4]_0) (fun _ => 0) 0
        = Some (Return (Element 0 0))].
Proof.
exact: (@degree0_always_invertible _ _ (@from_matrix 'Z_4 0) 0 0 0
          (fun _ => 0) 0 (erefl _)).
Defined.

End FurtherExamples.

Section FurtherConstructionExamples.

Import Examples.

Notation ev := (evolves sage_ring_eqb FiniteField Group_init).

Lemma evolves_world_QQ2 : ev empty_world world_QQ2.
Proof.
by apply: (evolves_step (args := [:: Integer 2; Ring QQ]) (kwds := [::])
             (g := 0%N) (evolves_refl _ _ _ _)).
Qed.

Lemma evolves_world_QQ2_ZZ3 : ev world_QQ2 world_QQ2_ZZ3.
Proof.
by apply: (evolves_step (args := [:: Integer 3; Ring ZZ]) (kwds := [::])
             (g := 1%N) (evolves_refl _ _ _ _)).
Qed.

Lemma classcall_bad_arguments_witness :
  AffineGroup_call [::] [::] empty_world = Raise (UnboundLocalError "degree") /\
  AffineGroup_call [:: Str "x"] [::] empty_world
    = Raise (AttributeError "dimension").
Proof.
have [arity _] :=
  classcall_bad_arguments sage_ring_eqb FiniteField Group_init
    [::] [::] empty_world.
have [_ nospace] :=
  classcall_bad_arguments sage_ring_eqb FiniteField Group_init
    [:: Str "x"] [::] empty_world.
by split; [exact: arity | exact: (nospace (Str "x"))].
Defined.

Lemma classcall_kwds_witness :
  AffineGroup_call [:: Integer 2; Integer 4] [:: ("names", "b")] empty_world
    = AffineGroup_call [:: Integer 2; Integer 4] [::] empty_world /\
  AffineGroup_call [:: Integer 2; Ring QQ] [:: ("var", "b")] empty_world
    = AffineGroup_call [:: Integer 2; Ring QQ] [::] empty_world.
Proof.
have [samevar _] :=
  classcall_kwds sage_ring_eqb FiniteField Group_init
    [:: Integer 2; Integer 4] [:: ("names", "b")] [::] empty_world.
have [_ noint] :=
  classcall_kwds sage_ring_eqb FiniteField Group_init
    [:: Integer 2; Ring QQ] [:: ("var", "b")] [::] empty_world.
by split; [exact: samevar | exact: noint].
Defined.

Lemma instances_persist_witness :
  params_of world_QQ2_ZZ3 0 = Some (Integer 2, Ring QQ).
Proof.
have here : params_of world_QQ2 0 = Some (Integer 2, Ring QQ) by [].
exact: (instances_persist sage_ring_eqbP evolves_world_QQ2
          evolves_world_QQ2_ZZ3 here).
Defined.

Lemma classcall_distinct_params_witness :
  [/\ AffineGroup_call [:: Integer 2; Ring QQ] [::] empty_world
        = Return (0%N, world_QQ2),
      AffineGroup_call [:: Integer 3; Ring ZZ] [::] world_QQ2
        = Return (1%N, world_QQ2_ZZ3)
    & 0%N <> 1%N].
Proof.
split; [by [] | by [] |].
apply: (@classcall_distinct_params _ _ FiniteField Group_init sage_ring_eqbP
          empty_world [:: Integer 2; Ring QQ] [::] [:: Integer 3; Ring ZZ] [::]
          (Integer 2) (Ring QQ) (Integer 3) (Ring ZZ)
          0%N world_QQ2 world_QQ2 1%N world_QQ2_ZZ3) => //.
- exact: evolves_refl.
- exact: evolves_refl.
Defined.

Lemma classcall_records_params_witness :
  exists g w',
    [/\ AffineGroup_call [:: AffineSpace 2 (GF 4 "a")] [::] world_QQ2
          = Return (g, w'),
        params_of w' g = Some (Integer 2, Ring (GF 4 "a"))
      & degree w' g = Some (Integer 2)].
Proof.
do 2!eexists; split; first by [].
- by have [-> _] :=
    classcall_records_params sage_ring_eqbP
      (args := [:: AffineSpace 2 (GF 4 "a")]) (kwds := [::])
      evolves_world_QQ2 (erefl _) (erefl _).
- by have [_ ->] :=
    classcall_records_params sage_ring_eqbP
      (args := [:: AffineSpace 2 (GF 4 "a")]) (kwds := [::])
      evolves_world_QQ2 (erefl _) (erefl _).
Defined.

End FurtherConstructionExamples.

Section FurtherPicklingExamples.

Import Examples.

Lemma foo_made :
  metaclass accept_bases "foo" [:: 0; 1]%N module_state
    = (Return 2%N, foo_state).
Proof. by []. Qed.

Lemma foo_made_again :
  metaclass accept_bases "foo" [:: 0; 1]%N foo_state
    = (Return 3%N, foo_state2).
Proof. by []. Qed.

Lemma metaclass_fresh_witness :
  [/\ stdout foo_state = [:: "constructing class"],
      getobj foo_state 0 = getobj module_state 0
    & getobj foo_state 2 =
        ClassObject Metaclass "foo" (Some ("foo", [:: 0; 1]%N))].
Proof.
have [out old [_ _ new]] := metaclass_fresh foo_made.
by split; [exact: out | exact: old | exact: new].
Defined.

Lemma Metaclass_eq_same_args_witness :
  Metaclass__eq__ 1 2 3 foo_state2 = (Return true, print eq_line foo_state2).
Proof.
exact: (@Metaclass_eq_same_args 0 2 3 ("foo", [:: 0; 1]%N) foo_state2
          (erefl _) (erefl _) (erefl _) (erefl _)).
Defined.

Lemma Metaclass_eq_plain_bases_witness :
  Metaclass__eq__ 1 2 3 foo_state2 =
    (Return (String.eqb "foo" "foo" && ([:: 0; 1]%N == [:: 0; 1]%N)),
     print eq_line foo_state2).
Proof.
exact: (@Metaclass_eq_plain_bases 0 2 3 "foo" [:: 0; 1]%N "foo" [:: 0; 1]%N
          foo_state2 (erefl _) (erefl _) (erefl _) (erefl _)
          (erefl _) (erefl _)).
Defined.

Lemma Metaclass_eq_edges_witness :
  Metaclass__eq__ 1 2 0 foo_state = (Return false, print eq_line foo_state) /\
  Metaclass__eq__ 1 0 1 foo_state
    = (Raise (AttributeError "reduce_args"), print eq_line foo_state).
Proof.
have [differ _] := Metaclass_eq_edges 0 2 0 foo_state.
have [_ missing] := Metaclass_eq_edges 0 0 1 foo_state.
by split; [exact: differ | apply: missing => //; left].
Defined.

Lemma reduce_returns_arguments_witness :
  Metaclass__reduce__ 2 foo_state
    = (Return ("foo", [:: 0; 1]%N), print "reducing a class" foo_state) /\
  Metaclass__reduce__ 2 foo_state2
    = (Return ("foo", [:: 0; 1]%N), print "reducing a class" foo_state2).
Proof. exact: (reduce_returns_arguments foo_made foo_made_again). Defined.

End FurtherPicklingExamples.
